(** * histolab: binary masks and tile scorers

    A shallow embedding of [src/histolab/masks.py] and
    [src/histolab/scorer.py].

    - A Python exception is the [Raise] branch of [result].
    - Python [int] is [Z]; Python [float] and [np.float64] are IEEE binary64,
      embedded as Rocq's primitive floats.
    - A numpy boolean array is a list of rows of [bool]; a PIL image is a list
      of rows of RGB triples.
    - The collaborators that live outside the two modules (the filter steps,
      connected-component labelling, PIL's polygon fill, numpy's generator
      and [np.tanh]) are the fields of the classes [Imaging] and [Numpy].
      They are modelled on the runs in which they return: an exception of a
      collaborator (a thumbnail that cannot be read, say) would pass through
      the methods below unchanged, and no theorem speaks of it. *)

From Stdlib Require Import ZArith List Bool Lia Permutation Sorted.
From Stdlib Require Import Floats Uint63.
Import ListNotations.

Set Implicit Arguments.
Local Open Scope Z_scope.

(** ** Python results *)

Module Py.

Inductive exn : Type :=
| ValueError
| IndexError
| ZeroDivisionError.

Inductive result (A : Type) : Type :=
| Ok (a : A)
| Raise (e : exn).

Arguments Ok {A} a.
Arguments Raise {A} e.

Definition bind {A B : Type} (r : result A) (k : A -> result B) : result B :=
  match r with
  | Ok a => k a
  | Raise e => Raise e
  end.

(** [len(l)] *)
Definition len {A : Type} (l : list A) : Z := Z.of_nat (length l).

(** [l[0]] *)
Definition getitem0 {A : Type} (l : list A) : result A :=
  match l with
  | x :: _ => Ok x
  | [] => Raise IndexError
  end.

(** [l[:n]] for [0 <= n] *)
Definition slice_to {A : Type} (n : Z) (l : list A) : list A :=
  firstn (Z.to_nat n) l.

Section Sorted.
Context {A : Type} (key : A -> Z).

(** One step of a stable descending sort: [x] stood before every element
    of [l] in the input, so it stays before the elements of equal key. *)
Fixpoint insert_reverse (x : A) (l : list A) : list A :=
  match l with
  | [] => [x]
  | y :: t => if key x <? key y then y :: insert_reverse x t
              else x :: y :: t
  end.

(** [sorted(l, key=key, reverse=True)]: Python's sort is stable, and
    [reverse=True] keeps the input order of elements with equal keys. *)
Definition sorted_reverse (l : list A) : list A :=
  fold_right insert_reverse [] l.

(** The order of the result: descending by key. *)
Definition descending (a b : A) : Prop := key b <= key a.
End Sorted.

(** [a / b] on two [int]s: true division. Both operands are converted
    exactly as long as they are below [2^53] (every pixel count is), and
    the IEEE quotient is then the correctly rounded one Python returns.
    From [2^53] on Python rounds the exact quotient once, which this does
    not follow: the theorems keep the operands below [2^53], or the
    dividend at 0. *)
Definition truediv (a b : Z) : result float :=
  if b =? 0 then Raise ZeroDivisionError
  else Ok (of_uint63 (Uint63.of_Z a) / of_uint63 (Uint63.of_Z b))%float.

(** A float that is zero or positive, and neither infinite nor a NaN. *)
Definition finite_nonneg (x : float) : bool :=
  match classify x with
  | PZero | PNormal | PSubn => true
  | _ => false
  end.

(** [0 <= x < 1] *)
Definition in_unit_interval (x : float) : bool :=
  ((0 <=? x) && (x <? 1))%float.

(** List objects on the heap: a reference is the position of the object,
    and an allocation appends a new object. *)
Definition ref : Type := nat.
Definition heap (A : Type) : Type := list (list A).

Definition contents {A : Type} (h : heap A) (r : ref) : list A :=
  nth r h [].

Definition alloc {A : Type} (h : heap A) (l : list A) : ref * heap A :=
  (length h, h ++ [l]).

(** A write into the object at [r], in place: every holder of the reference
    sees the new contents. *)
Definition write {A : Type} (h : heap A) (r : ref) (l : list A) : heap A :=
  firstn r h ++ match skipn r h with
                | [] => []
                | _ :: rest => l :: rest
                end.

End Py.

Import Py.
Notation "x <- c1 ;; c2" := (Py.bind c1 (fun x => c2))
  (at level 61, c1 at next level, right associativity).

(** ** [functools.lru_cache] *)

Module functools.

Section LruCache.
Context (K V : Type) (K_eqb : K -> K -> bool).

(** The entries are kept most recently used first; [hits] and [misses]
    are the counters of [cache_info()]. A miss is counted when the
    wrapped function is called. *)
Record cache : Type := mkCache {
  entries : list (K * V);
  hits : nat;
  misses : nat
}.

Definition cache_clear : cache := mkCache [] 0 0.

Fixpoint cache_get (k : K) (l : list (K * V)) : option V :=
  match l with
  | [] => None
  | (k', v) :: t => if K_eqb k k' then Some v else cache_get k t
  end.

Fixpoint unlink (k : K) (l : list (K * V)) : list (K * V) :=
  match l with
  | [] => []
  | (k', v) :: t => if K_eqb k k' then t else (k', v) :: unlink k t
  end.

(** One call of a function wrapped by [lru_cache(maxsize)], at the key
    [k]; [user_function] is the wrapped call on the same arguments. An
    exception of the wrapped function goes to the caller and nothing is
    stored. *)
Definition lru_cache (maxsize : nat) (k : K) (user_function : result V)
    (c : cache) : result V * cache :=
  match cache_get k (entries c) with
  | Some v =>
      (Ok v, mkCache ((k, v) :: unlink k (entries c)) (S (hits c)) (misses c))
  | None =>
      match user_function with
      | Raise e => (Raise e, mkCache (entries c) (hits c) (S (misses c)))
      | Ok v =>
          let kept :=
            if (length (entries c) <? maxsize)%nat then entries c
            else removelast (entries c) in
          (Ok v, mkCache ((k, v) :: kept) (hits c) (S (misses c)))
      end
  end.
(** What the cache holds at [k], if anything, is what the wrapped call
    returns: the arguments have not changed since the entry was stored. *)
Definition agrees (c : cache) (k : K) (user_function : result V) : Prop :=
  forall v, cache_get k (entries c) = Some v -> user_function = Ok v.

(** The same call when the wrapped function works on a store [H] (it
    builds the object it returns): a hit returns what the cache holds and
    does not run the wrapped function, so it leaves the store alone. *)
Definition lru_cache_on_heap {H : Type} (maxsize : nat) (k : K)
    (user_function : H -> result V * H) (c : cache) (h : H)
    : result V * cache * H :=
  match cache_get k (entries c) with
  | Some v =>
      (Ok v, mkCache ((k, v) :: unlink k (entries c)) (S (hits c)) (misses c),
       h)
  | None =>
      let (result, h') := user_function h in
      match result with
      | Raise e => (Raise e, mkCache (entries c) (hits c) (S (misses c)), h')
      | Ok v =>
          let kept :=
            if (length (entries c) <? maxsize)%nat then entries c
            else removelast (entries c) in
          (Ok v, mkCache ((k, v) :: kept) (hits c) (S (misses c)), h')
      end
  end.
End LruCache.

End functools.

(** ** Images, masks, slides and tiles *)

Definition grid (A : Type) : Type := list (list A).
Definition Image : Type := grid (Z * Z * Z).
Definition Mask : Type := grid bool.

(** [image.size] of PIL: (width, height) *)
Definition image_size (im : Image) : nat * nat :=
  (length (hd [] im), length im).

(** [m[r][c]], where it exists *)
Definition pixel {A : Type} (m : grid A) (r c : nat) : option A :=
  match nth_error m r with
  | Some row => nth_error row c
  | None => None
  end.

(** [array.size] *)
Definition size {A : Type} (m : grid A) : Z := len (concat m).

(** [np.count_nonzero(mask)] *)
Definition count_nonzero (m : Mask) : Z :=
  len (filter (fun b : bool => b) (concat m)).

(** Modelled from the spec: [histolab.types.Region] is not among the sources;
    a region has a unique label id, a pixel area and a coordinate polygon. *)
Record Region : Type := mkRegion {
  index : nat;
  area : Z;
  coords : list (Z * Z)
}.

(** Modelled from the spec: [histolab.slide.Slide] is not among the sources;
    a slide has an identity that is stable for the life of the handle, which
    is what the cache compares, and a thumbnail. *)
Record Slide : Type := mkSlide {
  slide_id : nat;
  thumbnail : Image
}.

(** Modelled from the spec: [histolab.tile.Tile] is not among the sources; a
    tile carries its pixel buffer and a precomputed tissue ratio. *)
Record Tile : Type := mkTile {
  image : Image;
  tissue_ratio : float
}.

(** [np.array(tile.apply_filters(filters).image)] *)
Definition apply_filters (tile : Tile) (filters : Image -> Mask) : Mask :=
  filters (image tile).

(** [operator.gt] *)
Definition operator_gt (a b : Z) : bool := a >? b.

(** The image-processing collaborators: the filter steps of
    [histolab.filters], the labelling of [histolab.util] and the polygon fill
    of PIL. Each is a function of its argument alone, given where it
    returns; what a collaborator raises is not modelled. *)
Class Imaging : Type := {
  HematoxylinChannel : Image -> Image;
  YenThreshold : (Z -> Z -> bool) -> Image -> Mask;
  WhiteTopHat : Mask -> Mask;
  tissue_mask_filters : Image -> Mask;
  regions_from_binary_mask : Mask -> list Region;
  polygon_fill : list (Z * Z) -> Z -> Z -> bool
}.

(** numpy's global generator and [np.tanh]. *)
Class Numpy : Type := {
  RandomState : Type;
  random_random : RandomState -> float * RandomState;
  tanh : float -> float
}.

(** Modelled from the spec: [histolab.filters.util.mask_difference] is not
    among the sources; the difference keeps the pixels that are on in the
    minuend and off in the subtrahend. *)
Definition mask_difference (minuend subtrahend : Mask) : Mask :=
  map (fun rows => map (fun p => fst p && negb (snd p))
                       (combine (fst rows) (snd rows)))
      (combine minuend subtrahend).

(** Following the spec's words: [maskNuclei] is the set difference
    [maskRaw AND NOT maskClean], pixel by pixel. *)
Definition is_mask_difference (maskNuclei maskRaw maskClean : Mask) : Prop :=
  forall r c : nat,
    pixel maskNuclei r c
    = match pixel maskRaw r c, pixel maskClean r c with
      | Some raw, Some clean => Some (raw && negb clean)
      | _, _ => None
      end.

(** The positions (row, column) of a grid, row by row. *)
Definition positions {A : Type} (m : grid A) : list (nat * nat) :=
  flat_map (fun r => map (fun c => (r, c)) (seq 0 (length (nth r m []))))
           (seq 0 (length m)).

Definition is_true_at (m : Mask) (p : nat * nat) : bool :=
  match pixel m (fst p) (snd p) with
  | Some true => true
  | _ => false
  end.

(** Following the spec's words: [count(maskNuclei == true)], the number of
    positions at which the mask is on. *)
Definition count_true_pixels (m : Mask) : Z :=
  len (filter (is_true_at m) (positions m)).

(** Following the spec's words: [total_pixel_count(maskNuclei)], the number
    of positions of the mask. *)
Definition total_pixel_count (m : Mask) : Z :=
  len (positions m).

(** Modelled from the spec: [histolab.util.region_coordinates] is not among
    the sources; it gives the coordinate polygon of the region. *)
Definition region_coordinates (r : Region) : list (Z * Z) := coords r.

(** Modelled from the spec: [histolab.util.polygon_to_mask_array] is not among
    the sources; it rasterizes the polygon on a canvas of the given size
    (width, height), one row per line of the canvas. *)
Definition polygon_to_mask_array `{Imaging} (dims : nat * nat)
    (vertices : list (Z * Z)) : Mask :=
  map (fun y => map (fun x => polygon_fill vertices (Z.of_nat x) (Z.of_nat y))
                    (seq 0 (fst dims)))
      (seq 0 (snd dims)).

(** ** masks.py *)

(** The cache of a decorated method [_mask(self, slide)]; each decorated
    method has a cache of its own. *)
Definition mask_cache : Type := functools.cache (nat * nat)%type Mask.

(** The same cache with the arrays as objects: what [lru_cache] stores and
    hands back is the reference to the array that [_mask] built, not a copy
    of it. [mask_cache] is this cache read through the heap. *)
Definition array_cache : Type := functools.cache (nat * nat)%type ref.

Definition read_cache (h : heap (list bool)) (c : array_cache) : mask_cache :=
  functools.mkCache
    (map (fun entry => (fst entry, contents h (snd entry)))
         (functools.entries c))
    (functools.hits c) (functools.misses c).

Definition key_eqb (a b : nat * nat) : bool :=
  Nat.eqb (fst a) (fst b) && Nat.eqb (snd a) (snd b).

(** [@lru_cache(maxsize=100)] on a method [_mask(self, slide)]: the key is
    the pair of the two objects, compared by identity. *)
Definition lru_cache_100 (_mask : Slide -> result Mask)
    (self : nat) (slide : Slide) (c : mask_cache) : result Mask * mask_cache :=
  functools.lru_cache key_eqb 100 (self, slide_id slide) (_mask slide) c.

Module BiggestTissueBoxMask.

(** [BiggestTissueBoxMask._regions(regions, n)] *)
Definition _regions (regions : list Region) (n : Z) : result (list Region) :=
  if n <? 1 then Raise ValueError
  else if n >? len regions then Raise ValueError
  else
    let sorted_regions := sorted_reverse area regions in
    Ok (slice_to n sorted_regions).

(** The same method with the list objects made explicit: [regions] is a
    reference into the heap, [sorted] and the slice each build a new list
    object. *)
Definition _regions_on_heap (h : heap Region) (regions : ref) (n : Z)
    : result ref * heap Region :=
  if n <? 1 then (Raise ValueError, h)
  else if n >? len (contents h regions) then (Raise ValueError, h)
  else
    let (sorted_regions, h1) := alloc h (sorted_reverse area (contents h regions)) in
    let (sliced, h2) := alloc h1 (slice_to n (contents h1 sorted_regions)) in
    (Ok sliced, h2).

Section Mask.
Context `{Imaging}.

(** The body of [BiggestTissueBoxMask._mask], under the decorator, on the
    runs in which [slide.thumbnail], the filters, the labelling and the
    rasterizer return: the exceptions are those the body raises itself. *)
Definition _mask_wrapped (slide : Slide) : result Mask :=
  let thumb := thumbnail slide in
  let filters := tissue_mask_filters in
  let thumb_mask := filters thumb in
  let regions := regions_from_binary_mask thumb_mask in
  top <- _regions regions 1 ;;
  biggest_region <- getitem0 top ;;
  let biggest_region_coordinates := region_coordinates biggest_region in
  let thumb_bbox_mask :=
    polygon_to_mask_array (image_size thumb) biggest_region_coordinates in
  Ok thumb_bbox_mask.

(** [@lru_cache(maxsize=100) def _mask(self, slide)] *)
Definition _mask : nat -> Slide -> mask_cache -> result Mask * mask_cache :=
  lru_cache_100 _mask_wrapped.

(** [BinaryMask.__call__] *)
Definition __call__ (self : nat) (slide : Slide) (c : mask_cache)
    : result Mask * mask_cache :=
  _mask self slide c.

(** The body of [_mask] with the array it returns as an object: each run
    builds a new array. *)
Definition _mask_wrapped_on_heap (slide : Slide) (h : heap (list bool))
    : result ref * heap (list bool) :=
  match _mask_wrapped slide with
  | Ok thumb_bbox_mask =>
      let (r, h') := alloc h thumb_bbox_mask in
      (Ok r, h')
  | Raise e => (Raise e, h)
  end.

(** [@lru_cache(maxsize=100) def _mask(self, slide)], on the heap *)
Definition _mask_on_heap (self : nat) (slide : Slide) (c : array_cache)
    (h : heap (list bool)) : result ref * array_cache * heap (list bool) :=
  functools.lru_cache_on_heap key_eqb 100 (self, slide_id slide)
    (_mask_wrapped_on_heap slide) c h.

(** [BinaryMask.__call__], on the heap *)
Definition __call__on_heap (self : nat) (slide : Slide) (c : array_cache)
    (h : heap (list bool)) : result ref * array_cache * heap (list bool) :=
  _mask_on_heap self slide c h.

(** What the cache holds for the slide, if anything, is an array that still
    holds what the computation returns: neither the slide nor the array has
    been written since the array was stored. *)
Definition agrees_on_heap (c : array_cache) (h : heap (list bool))
    (self : nat) (slide : Slide) : Prop :=
  forall r : ref,
    functools.cache_get key_eqb (self, slide_id slide) (functools.entries c)
    = Some r ->
    _mask_wrapped slide = Ok (contents h r).
End Mask.

End BiggestTissueBoxMask.

Module TissueMask.

Section Mask.
Context `{Imaging}.

(** The body of [TissueMask._mask], under the decorator, on the runs in
    which [slide.thumbnail] and the filters return; the body raises nothing
    itself. *)
Definition _mask_wrapped (slide : Slide) : result Mask :=
  let thumb := thumbnail slide in
  let filters := tissue_mask_filters in
  let thumb_mask := filters thumb in
  Ok thumb_mask.

(** [@lru_cache(maxsize=100) def _mask(self, slide)] *)
Definition _mask : nat -> Slide -> mask_cache -> result Mask * mask_cache :=
  lru_cache_100 _mask_wrapped.

(** [BinaryMask.__call__] *)
Definition __call__ (self : nat) (slide : Slide) (c : mask_cache)
    : result Mask * mask_cache :=
  _mask self slide c.
End Mask.

End TissueMask.

(** Calls of a mask strategy one after the other, each on a strategy object
    and a slide, from a cache on. *)
Fixpoint call_in_turn {C : Type} (call : nat -> Slide -> C -> result Mask * C)
    (calls : list (nat * Slide)) (c : C) : C :=
  match calls with
  | [] => c
  | (self, slide) :: rest => call_in_turn call rest (snd (call self slide c))
  end.

(** Calls of the box strategy one after the other on the heap, no array
    being written in between. *)
Fixpoint call_in_turn_on_heap `{Imaging} (calls : list (nat * Slide))
    (c : array_cache) (h : heap (list bool))
    : array_cache * heap (list bool) :=
  match calls with
  | [] => (c, h)
  | (self, slide) :: rest =>
      let '(_, c', h') := BiggestTissueBoxMask.__call__on_heap self slide c h in
      call_in_turn_on_heap rest c' h'
  end.

(** The entry of the cache was computed by one of the calls. *)
Definition computed (_mask : Slide -> result Mask) (calls : list (nat * Slide))
    (entry : nat * nat * Mask) : Prop :=
  exists self slide,
    In (self, slide) calls
    /\ fst entry = (self, slide_id slide) /\ _mask slide = Ok (snd entry).

(** ** scorer.py *)

(** A scorer is called on a tile in a state of numpy's generator and leaves
    a state behind. *)
Definition Scorer `{Numpy} : Type :=
  Tile -> RandomState -> result float * RandomState.

Module RandomScorer.

Section Call.
Context `{Numpy}.

(** [RandomScorer.__call__(tile)] *)
Definition __call__ : Scorer :=
  fun tile st =>
    let (x, st') := random_random st in
    (Ok x, st').
End Call.

End RandomScorer.

Module NucleiScorer.

Section Call.
Context `{Imaging} `{Numpy}.

Definition filters_raw_nuclei : Image -> Mask :=
  fun im => YenThreshold operator_gt (HematoxylinChannel im).

Definition filters_nuclei_cleaner : Image -> Mask :=
  fun im => WhiteTopHat (YenThreshold operator_gt (HematoxylinChannel im)).

(** The nuclei mask of [NucleiScorer.__call__(tile)]. *)
Definition mask_nuclei (tile : Tile) : Mask :=
  let mask_raw_nuclei := apply_filters tile filters_raw_nuclei in
  let mask_nuclei_clean := apply_filters tile filters_nuclei_cleaner in
  mask_difference mask_raw_nuclei mask_nuclei_clean.

(** The body of [NucleiScorer.__call__(tile)]; it never reads the
    generator. *)
Definition score (tile : Tile) : result float :=
  let mask_nuclei := mask_nuclei tile in
  nuclei_ratio <- truediv (count_nonzero mask_nuclei) (size mask_nuclei) ;;
  Ok (nuclei_ratio * tanh (tissue_ratio tile))%float.

(** [NucleiScorer.__call__(tile)] *)
Definition __call__ : Scorer :=
  fun tile st => (score tile, st).
End Call.

End NucleiScorer.

(** [n] calls of a scorer in a row, on the tiles of the list. *)
Fixpoint call_each `{Numpy} (scorer : Scorer) (tiles : list Tile)
    (st : RandomState) : list (result float) * RandomState :=
  match tiles with
  | [] => ([], st)
  | tile :: rest =>
      let (r, st1) := scorer tile st in
      let (rs, st2) := call_each scorer rest st1 in
      (r :: rs, st2)
  end.

(** The first [n] draws of the generator. *)
Fixpoint draws `{Numpy} (n : nat) (st : RandomState)
    : list float * RandomState :=
  match n with
  | O => ([], st)
  | S k =>
      let (x, st1) := random_random st in
      let (xs, st2) := draws k st1 in
      (x :: xs, st2)
  end.

(** ** A small executable instance of the collaborators

    Used to run the model on concrete slides and tiles. The theorems below
    hold for every instance of [Imaging] and [Numpy]. *)

Module Demo.

Definition luminance (p : Z * Z * Z) : Z :=
  let '(r, g, b) := p in (r + g + b) / 3.

Definition threshold (relate : Z -> Z -> bool) (t : Z) (im : Image) : Mask :=
  map (map (fun p => relate (luminance p) t)) im.

(** The stain absorbs red light. *)
Definition hematoxylin (im : Image) : Image :=
  map (map (fun p : Z * Z * Z => let '(r, _, _) := p in (255 - r, 255 - r, 255 - r))) im.

Definition pixel_at (m : Mask) (r c : Z) : bool :=
  if (r <? 0) || (c <? 0) then false
  else nth (Z.to_nat c) (nth (Z.to_nat r) m []) false.

Definition has_neighbour (m : Mask) (r c : Z) : bool :=
  pixel_at m (r - 1) c || pixel_at m (r + 1) c
  || pixel_at m r (c - 1) || pixel_at m r (c + 1).

(** Keeps what an opening removes: the pixels without a neighbour. *)
Definition top_hat (m : Mask) : Mask :=
  map (fun r => map (fun c => pixel_at m (Z.of_nat r) (Z.of_nat c)
                              && negb (has_neighbour m (Z.of_nat r) (Z.of_nat c)))
                    (seq 0 (length (nth r m []))))
      (seq 0 (length m)).

(** The pixels that are on, as (x, y), line by line. *)
Definition on_pixels (m : Mask) : list (Z * Z) :=
  flat_map (fun y => flat_map (fun x => if pixel_at m (Z.of_nat y) (Z.of_nat x)
                                        then [(Z.of_nat x, Z.of_nat y)] else [])
                              (seq 0 (length (nth y m []))))
           (seq 0 (length m)).

(** 8-connectivity *)
Definition adjacent (p q : Z * Z) : bool :=
  (Z.abs (fst p - fst q) <=? 1) && (Z.abs (snd p - snd q) <=? 1).

Fixpoint grow (fuel : nat) (component rest : list (Z * Z))
    : list (Z * Z) * list (Z * Z) :=
  match fuel with
  | O => (component, rest)
  | S fuel' =>
      let (near, far) :=
        partition (fun p => existsb (adjacent p) component) rest in
      match near with
      | [] => (component, rest)
      | _ => grow fuel' (component ++ near) far
      end
  end.

Fixpoint components (fuel : nat) (pixels : list (Z * Z))
    : list (list (Z * Z)) :=
  match fuel, pixels with
  | S fuel', p :: rest =>
      let (component, rest') := grow (length rest) [p] rest in
      component :: components fuel' rest'
  | _, _ => []
  end.

Definition minimum (l : list Z) : Z := fold_right Z.min (hd 0 l) l.
Definition maximum (l : list Z) : Z := fold_right Z.max (hd 0 l) l.

(** The corners of the bounding box, as a polygon. *)
Definition bounding_box (ps : list (Z * Z)) : list (Z * Z) :=
  let xs := map fst ps in
  let ys := map snd ps in
  [ (minimum xs, minimum ys); (minimum xs, maximum ys);
    (maximum xs, maximum ys); (maximum xs, minimum ys) ].

Fixpoint enumerate {A : Type} (i : nat) (l : list A) : list (nat * A) :=
  match l with
  | [] => []
  | x :: t => (i, x) :: enumerate (S i) t
  end.

Definition label_regions (m : Mask) : list Region :=
  let pixels := on_pixels m in
  map (fun ic => mkRegion (fst ic) (len (snd ic)) (bounding_box (snd ic)))
      (enumerate 0 (components (length pixels) pixels)).

(** A rectangle is filled edges included. *)
Definition fill (vertices : list (Z * Z)) (x y : Z) : bool :=
  match vertices with
  | [] => false
  | _ =>
      (minimum (map fst vertices) <=? x) && (x <=? maximum (map fst vertices))
      && (minimum (map snd vertices) <=? y) && (y <=? maximum (map snd vertices))
  end.

#[local] Instance imaging : Imaging := {|
  HematoxylinChannel := hematoxylin;
  YenThreshold := fun relate => threshold relate 127;
  WhiteTopHat := top_hat;
  tissue_mask_filters := threshold Z.ltb 200;
  regions_from_binary_mask := label_regions;
  polygon_fill := fill
|}.

(** A rational approximation of the hyperbolic tangent. *)
Definition tanh_pade (x : float) : float :=
  (x * (27 + x * x) / (27 + 9 * x * x))%float.

(** A linear congruential generator; 53 bits make the float. *)
Definition lcg (st : Z) : float * Z :=
  let st' := (6364136223846793005 * st + 1442695040888963407) mod 2 ^ 64 in
  ((of_uint63 (Uint63.of_Z (st' / 2 ^ 11)) / 9007199254740992)%float, st').

#[local] Instance numpy : Numpy := {|
  RandomState := Z;
  random_random := lcg;
  tanh := tanh_pade
|}.

Definition white : Z * Z * Z := (255, 255, 255).
Definition pink : Z * Z * Z := (200, 120, 160).
Definition purple : Z * Z * Z := (60, 20, 110).

(** A thumbnail with two pieces of tissue, of 3 pixels and of 1 pixel. *)
Definition thumb_two_pieces : Image :=
  [ [pink;  pink;  white; white];
    [pink;  white; white; white];
    [white; white; white; white];
    [white; white; white; pink ] ].

Definition thumb_blank : Image :=
  [ [white; white; white];
    [white; white; white] ].

Definition slide_two_pieces : Slide := mkSlide 1 thumb_two_pieces.
Definition slide_blank : Slide := mkSlide 2 thumb_blank.

(** The box around the piece of 3 pixels. *)
Definition box_mask : Mask :=
  [ [true;  true;  false; false];
    [true;  true;  false; false];
    [false; false; false; false];
    [false; false; false; false] ].

(** A hundred calls on a hundred further slides. *)
Definition hundred_calls : list (nat * Slide) :=
  map (fun i => (7%nat, mkSlide (10 + i) thumb_two_pieces)) (seq 0 100).

Definition tile_nuclei : Tile :=
  mkTile [ [purple; purple; pink];
           [pink;   white;  purple] ] 0.5%float.

(** A tile of stroma, without a nucleus. *)
Definition tile_stroma : Tile :=
  mkTile [ [pink; white]; [pink; pink] ] 0.5%float.

(** A tile of nuclei side by side. *)
Definition tile_all_nuclei : Tile :=
  mkTile [ [purple; purple]; [purple; purple] ] 0.5%float.

(** The nuclei of [tile_nuclei] on a tile of tissue ratio 0. *)
Definition tile_nuclei_no_tissue : Tile :=
  mkTile [ [purple; purple; pink];
           [pink;   white;  purple] ] 0%float.

(** The nuclei mask of [tile_nuclei]: the raw mask without the lone pixel
    that the top-hat keeps. *)
Definition nuclei_mask : Mask :=
  [ [true;  true;  false];
    [false; false; false] ].

Definition tile_empty : Tile := mkTile [] 0%float.

Definition r1 : Region := mkRegion 0 5 [(0, 0); (0, 1); (1, 1); (1, 0)].
Definition r2 : Region := mkRegion 1 9 [(3, 3); (3, 5); (5, 5); (5, 3)].
Definition r3 : Region := mkRegion 2 5 [(7, 0); (7, 1); (8, 1); (8, 0)].
Definition r4 : Region := mkRegion 3 2 [(0, 7); (0, 7); (1, 7); (1, 7)].

End Demo.


(** * Properties *)

(** ** The stable descending sort *)

Section SortedFacts.
Context {A : Type} (key : A -> Z).

Lemma insert_reverse_perm (x : A) (l : list A) :
  Permutation (x :: l) (insert_reverse key x l).
Proof.
  induction l as [|y t IH]; simpl.
  - apply Permutation_refl.
  - destruct (key x <? key y).
    + eapply perm_trans; [apply perm_swap|]. now apply perm_skip.
    + apply Permutation_refl.
Qed.

Lemma sorted_reverse_perm (l : list A) :
  Permutation l (sorted_reverse key l).
Proof.
  induction l as [|x t IH]; simpl.
  - constructor.
  - eapply perm_trans; [|apply insert_reverse_perm]. now apply perm_skip.
Qed.

Lemma sorted_reverse_length (l : list A) :
  length (sorted_reverse key l) = length l.
Proof. symmetry. apply Permutation_length, sorted_reverse_perm. Qed.

Lemma insert_reverse_sorted (x : A) (l : list A) :
  StronglySorted (descending key) l ->
  StronglySorted (descending key) (insert_reverse key x l).
Proof.
  induction 1 as [|y t Ht IH Hy]; simpl.
  - repeat constructor.
  - destruct (key x <? key y) eqn:E.
    + apply Z.ltb_lt in E. constructor; [exact IH|].
      eapply Permutation_Forall; [apply insert_reverse_perm|].
      constructor; [unfold descending; lia|exact Hy].
    + apply Z.ltb_ge in E. constructor.
      * now constructor.
      * constructor; [exact E|].
        eapply Forall_impl; [|exact Hy].
        unfold descending. intros; lia.
Qed.

Lemma sorted_reverse_sorted (l : list A) :
  StronglySorted (descending key) (sorted_reverse key l).
Proof.
  induction l as [|x t IH]; simpl.
  - constructor.
  - now apply insert_reverse_sorted.
Qed.

(** Stability: the elements of one key keep their input order. *)
Lemma insert_reverse_filter (a : Z) (x : A) (l : list A) :
  filter (fun r => key r =? a) (insert_reverse key x l)
  = filter (fun r => key r =? a) (x :: l).
Proof.
  induction l as [|y t IH]; simpl; [reflexivity|].
  destruct (key x <? key y) eqn:E; [|reflexivity].
  apply Z.ltb_lt in E. simpl in *. rewrite IH.
  destruct (key x =? a) eqn:Ex; [|reflexivity].
  apply Z.eqb_eq in Ex.
  destruct (key y =? a) eqn:Ey; [|reflexivity].
  apply Z.eqb_eq in Ey. lia.
Qed.

Lemma sorted_reverse_stable (a : Z) (l : list A) :
  filter (fun r => key r =? a) (sorted_reverse key l)
  = filter (fun r => key r =? a) l.
Proof.
  induction l as [|x t IH]; simpl; [reflexivity|].
  rewrite insert_reverse_filter. simpl. now rewrite IH.
Qed.

Lemma sorted_app_cross (l1 l2 : list A) :
  StronglySorted (descending key) (l1 ++ l2) ->
  forall x y, In x l1 -> In y l2 -> descending key x y.
Proof.
  induction l1 as [|z t IH]; simpl; intros S x y Hx Hy; [contradiction|].
  inversion S as [|? ? St Hz]; subst.
  destruct Hx as [->|Hx].
  - rewrite Forall_forall in Hz. apply Hz, in_or_app. now right.
  - now apply IH.
Qed.

Lemma sorted_app_left (l1 l2 : list A) :
  StronglySorted (descending key) (l1 ++ l2) -> StronglySorted (descending key) l1.
Proof.
  induction l1 as [|z t IH]; simpl; intros S; [constructor|].
  inversion S as [|? ? St Hz]; subst.
  constructor; [now apply IH|].
  apply Forall_app in Hz. tauto.
Qed.

Lemma sorted_nth_error (l : list A) :
  StronglySorted (descending key) l ->
  forall i j x y, (i < j)%nat ->
    nth_error l i = Some x -> nth_error l j = Some y -> descending key x y.
Proof.
  induction 1 as [|z t St IH Hz]; intros i j x y Hij Hi Hj.
  - destruct i; discriminate.
  - destruct j as [|j]; [lia|]. destruct i as [|i]; simpl in *.
    + injection Hi as <-. rewrite Forall_forall in Hz.
      eapply Hz, nth_error_In, Hj.
    + apply (IH i j); [lia|assumption..].
Qed.
End SortedFacts.

Lemma filter_firstn_prefix {A : Type} (p : A -> bool) (n : nat) (l : list A) :
  exists k, filter p (firstn n l) = firstn k (filter p l).
Proof.
  revert n. induction l as [|x t IH]; intros [|n]; simpl;
    try (now exists O).
  destruct (IH n) as [k Hk]. destruct (p x).
  - exists (S k). simpl. now rewrite Hk.
  - now exists k.
Qed.

(** ** Heap facts *)

Lemma contents_alloc_old {A : Type} (h : heap A) (l : list A) (r : ref) :
  (r < length h)%nat -> contents (snd (alloc h l)) r = contents h r.
Proof. intros Hr. unfold contents, alloc; simpl. now apply app_nth1. Qed.

Lemma contents_alloc_new {A : Type} (h : heap A) (l : list A) :
  contents (snd (alloc h l)) (fst (alloc h l)) = l.
Proof. unfold contents, alloc; simpl. apply nth_middle. Qed.


Lemma contents_write_other {A : Type} (h : heap A) (r r' : ref) (l : list A) :
  r' <> r -> contents (write h r l) r' = contents h r'.
Proof.
  intros Hne. unfold contents, write.
  rewrite <- (firstn_skipn r h) at 3.
  destruct (Nat.lt_ge_cases r' r) as [Hlt|Hge].
  - destruct (Nat.lt_ge_cases r' (length h)) as [Hin|Hout].
    + assert (Hlen : (r' < length (firstn r h))%nat)
        by (rewrite length_firstn; lia).
      now rewrite !app_nth1 by exact Hlen.
    + assert (Hall : skipn r h = [])
        by (apply skipn_all2; lia).
      now rewrite Hall.
  - destruct (Nat.le_gt_cases (length h) r) as [Hout|Hin].
    + assert (Hall : skipn r h = []) by (apply skipn_all2; lia).
      now rewrite Hall.
    + assert (Hlen : length (firstn r h) = r)
        by (rewrite length_firstn; lia).
      rewrite !app_nth2 by lia. rewrite Hlen.
      destruct (skipn r h) as [|x rest]; [reflexivity|].
      destruct (r' - r)%nat as [|d] eqn:Ed; [lia|reflexivity].
Qed.

(** ** Region selection *)

Lemma regions_ok (regions : list Region) (n : Z) :
  1 <= n <= len regions ->
  BiggestTissueBoxMask._regions regions n
  = Ok (slice_to n (sorted_reverse area regions)).
Proof.
  intros [H1 H2]. unfold BiggestTissueBoxMask._regions.
  destruct (n <? 1) eqn:E1; [apply Z.ltb_lt in E1; lia|].
  destruct (n >? len regions) eqn:E2; [|reflexivity].
  apply Z.gtb_lt in E2. lia.
Qed.

Lemma regions_raise (regions : list Region) (n : Z) :
  n < 1 \/ n > len regions ->
  BiggestTissueBoxMask._regions regions n = Raise ValueError.
Proof.
  intros H. unfold BiggestTissueBoxMask._regions.
  destruct (n <? 1) eqn:E1; [reflexivity|].
  destruct (n >? len regions) eqn:E2; [reflexivity|].
  apply Z.ltb_ge in E1. rewrite Z.gtb_ltb in E2. apply Z.ltb_ge in E2. lia.
Qed.

Lemma regions_cases (regions : list Region) (n : Z) :
  (1 <= n <= len regions) \/ (n < 1 \/ n > len regions).
Proof. lia. Qed.

(** C2: for [1 <= n <= len(regions)], [_regions] returns exactly [n] regions,
    in descending order of area, which are [n] largest ones (what is left out
    is nowhere larger); regions of equal area are taken and listed in the
    order of the input list, which is the secondary key of the stable sort. *)
Theorem regions_returns_n_largest (regions : list Region) (n : Z) :
  1 <= n <= len regions ->
  exists top rest : list Region,
    BiggestTissueBoxMask._regions regions n = Ok top
    /\ len top = n
    /\ (forall i j ri rj, (i < j)%nat ->
          nth_error top i = Some ri -> nth_error top j = Some rj ->
          area ri >= area rj)
    /\ Permutation regions (top ++ rest)
    /\ (forall r r', In r top -> In r' rest -> area r >= area r')
    /\ (forall a, exists k,
          filter (fun r => area r =? a) top
          = firstn k (filter (fun r => area r =? a) regions)).
Proof.
  intros Hn.
  exists (slice_to n (sorted_reverse area regions)),
         (skipn (Z.to_nat n) (sorted_reverse area regions)).
  pose proof (sorted_reverse_sorted area regions) as Hs.
  unfold slice_to in *.
  rewrite <- (firstn_skipn (Z.to_nat n) (sorted_reverse area regions)) in Hs.
  split; [now apply regions_ok|].
  split.
  { unfold len in *. rewrite length_firstn, sorted_reverse_length. lia. }
  split.
  { intros i j ri rj Hij Hi Hj. apply Z.le_ge.
    apply sorted_app_left in Hs.
    exact (sorted_nth_error Hs Hij Hi Hj). }
  split.
  { rewrite firstn_skipn. apply sorted_reverse_perm. }
  split.
  { intros r r' Hr Hr'. apply Z.le_ge.
    exact (sorted_app_cross _ _ Hs r r' Hr Hr'). }
  intros a.
  destruct (filter_firstn_prefix (fun r => area r =? a) (Z.to_nat n)
              (sorted_reverse area regions)) as [k Hk].
  exists k. rewrite Hk. now rewrite sorted_reverse_stable.
Qed.

Lemma regions_returns_n_largest_witness :
  1 <= 3 <= len [Demo.r1; Demo.r2; Demo.r3; Demo.r4]
  /\ exists top rest : list Region,
       BiggestTissueBoxMask._regions [Demo.r1; Demo.r2; Demo.r3; Demo.r4] 3 = Ok top
       /\ len top = 3
       /\ (forall i j ri rj, (i < j)%nat ->
             nth_error top i = Some ri -> nth_error top j = Some rj ->
             area ri >= area rj)
       /\ Permutation [Demo.r1; Demo.r2; Demo.r3; Demo.r4] (top ++ rest)
       /\ (forall r r', In r top -> In r' rest -> area r >= area r')
       /\ (forall a, exists k,
             filter (fun r => area r =? a) top
             = firstn k (filter (fun r => area r =? a)
                                [Demo.r1; Demo.r2; Demo.r3; Demo.r4])).
Proof.
  assert (H : 1 <= 3 <= len [Demo.r1; Demo.r2; Demo.r3; Demo.r4])
    by (vm_compute; split; discriminate).
  split; [exact H|].
  exact (regions_returns_n_largest [Demo.r1; Demo.r2; Demo.r3; Demo.r4] H).
Defined.

(** C3: [_regions] raises exactly when [n < 1] or [n] exceeds the number of
    regions, and what it raises is [ValueError]; [_regions([r1], 2)] raises;
    a list that is returned has [n] elements, so [n] is never clamped. *)
Theorem regions_raises_value_error (regions : list Region) (n : Z) :
  (BiggestTissueBoxMask._regions regions n = Raise ValueError
   <-> n < 1 \/ n > len regions)
  /\ (forall e, BiggestTissueBoxMask._regions regions n = Raise e
                -> e = ValueError)
  /\ (forall r1, BiggestTissueBoxMask._regions [r1] 2 = Raise ValueError)
  /\ (forall top, BiggestTissueBoxMask._regions regions n = Ok top
                  -> len top = n).
Proof.
  split; [|split; [|split]].
  - split; [|apply regions_raise].
    intros E. destruct (regions_cases regions n) as [Hin|Hout]; [|exact Hout].
    rewrite (regions_ok regions Hin) in E. discriminate.
  - intros e E. destruct (regions_cases regions n) as [Hin|Hout].
    + rewrite (regions_ok regions Hin) in E. discriminate.
    + rewrite (regions_raise regions Hout) in E. now injection E.
  - intros r1. reflexivity.
  - intros top E. destruct (regions_cases regions n) as [Hin|Hout].
    + rewrite (regions_ok regions Hin) in E. injection E as <-.
      unfold slice_to, len in *.
      rewrite length_firstn, sorted_reverse_length. lia.
    + rewrite (regions_raise regions Hout) in E. discriminate.
Qed.

(** C10: [_regions] leaves its input alone. Whatever [n] is, the list object
    passed in, and every other list object that existed before the call,
    holds afterwards what it held before; the result of a successful call is
    a list object that did not exist before, and a failed call allocates
    nothing. *)
Theorem regions_leaves_input_unchanged
    (h : heap Region) (regions : ref) (n : Z) :
  (regions < length h)%nat ->
  contents (snd (BiggestTissueBoxMask._regions_on_heap h regions n)) regions
  = contents h regions
  /\ (forall r, (r < length h)%nat ->
        contents (snd (BiggestTissueBoxMask._regions_on_heap h regions n)) r
        = contents h r)
  /\ match fst (BiggestTissueBoxMask._regions_on_heap h regions n),
           BiggestTissueBoxMask._regions (contents h regions) n with
     | Ok out, Ok top =>
         (length h <= out)%nat /\ out <> regions
         /\ contents (snd (BiggestTissueBoxMask._regions_on_heap h regions n)) out
            = top
     | Raise e, Raise e' =>
         e = e' /\ snd (BiggestTissueBoxMask._regions_on_heap h regions n) = h
     | _, _ => False
     end.
Proof.
  intros Hr.
  unfold BiggestTissueBoxMask._regions_on_heap, BiggestTissueBoxMask._regions.
  destruct (n <? 1); [simpl; auto|].
  destruct (n >? len (contents h regions)); [simpl; auto|].
  set (s := sorted_reverse area (contents h regions)).
  assert (Hs : contents (h ++ [s]) (length h) = s)
    by apply (contents_alloc_new h s).
  assert (Hold : forall r, (r < length h)%nat ->
            contents ((h ++ [s]) ++ [slice_to n s]) r = contents h r).
  { intros r Hlt.
    rewrite (contents_alloc_old (h ++ [s]) (slice_to n s))
      by (rewrite length_app; simpl; lia).
    now apply (contents_alloc_old h s). }
  unfold alloc. rewrite Hs. cbn [fst snd].
  split; [now apply Hold|]. split; [exact Hold|].
  split; [rewrite length_app; simpl; lia|].
  split; [rewrite length_app; simpl; lia|].
  exact (contents_alloc_new (h ++ [s]) (slice_to n s)).
Qed.

Lemma regions_leaves_input_unchanged_witness :
  (0 < length [[Demo.r1; Demo.r2; Demo.r3]])%nat
  /\ contents (snd (BiggestTissueBoxMask._regions_on_heap
                      [[Demo.r1; Demo.r2; Demo.r3]] 0%nat 2)) 0%nat
     = [Demo.r1; Demo.r2; Demo.r3].
Proof.
  assert (H : (0 < length [[Demo.r1; Demo.r2; Demo.r3]])%nat)
    by (simpl; lia).
  split; [exact H|].
  exact (proj1 (@regions_leaves_input_unchanged
                  [[Demo.r1; Demo.r2; Demo.r3]] 0%nat 2 H)).
Defined.

(** ** The cache *)

Section LruCacheFacts.
Context {K V : Type} (K_eqb : K -> K -> bool).
Hypothesis K_eqb_refl : forall k, K_eqb k k = true.

Lemma lru_cache_hit (maxsize : nat) (k : K) (f : result V)
    (c : functools.cache K V) (v : V) :
  functools.cache_get K_eqb k (functools.entries c) = Some v ->
  exists c',
    functools.lru_cache K_eqb maxsize k f c = (Ok v, c')
    /\ functools.misses c' = functools.misses c
    /\ functools.hits c' = S (functools.hits c)
    /\ functools.cache_get K_eqb k (functools.entries c') = Some v.
Proof.
  intros Hget. unfold functools.lru_cache. rewrite Hget.
  eexists. split; [reflexivity|]. simpl. rewrite K_eqb_refl. auto.
Qed.

Lemma lru_cache_store (maxsize : nat) (k : K) (f : result V)
    (c : functools.cache K V) (v : V) :
  functools.cache_get K_eqb k (functools.entries c) = None ->
  f = Ok v ->
  exists c',
    functools.lru_cache K_eqb maxsize k f c = (Ok v, c')
    /\ functools.misses c' = S (functools.misses c)
    /\ functools.hits c' = functools.hits c
    /\ functools.cache_get K_eqb k (functools.entries c') = Some v.
Proof.
  intros Hget ->. unfold functools.lru_cache. rewrite Hget.
  eexists. split; [reflexivity|]. simpl. rewrite K_eqb_refl. auto.
Qed.

Lemma lru_cache_raise (maxsize : nat) (k : K) (f : result V)
    (c : functools.cache K V) (e : exn) :
  functools.cache_get K_eqb k (functools.entries c) = None ->
  f = Raise e ->
  functools.lru_cache K_eqb maxsize k f c
  = (Raise e, functools.mkCache (functools.entries c) (functools.hits c)
                                (S (functools.misses c))).
Proof.
  intros Hget ->. unfold functools.lru_cache. now rewrite Hget.
Qed.

(** A call that returns a value leaves it in the cache; if the cache agreed
    with the wrapped function, the value is the one the function returns. *)
Lemma lru_cache_returns (maxsize : nat) (k : K) (f : result V)
    (c c1 : functools.cache K V) (v : V) :
  functools.lru_cache K_eqb maxsize k f c = (Ok v, c1) ->
  functools.cache_get K_eqb k (functools.entries c1) = Some v
  /\ (functools.misses c1 <= S (functools.misses c))%nat
  /\ (functools.agrees K_eqb c k f -> f = Ok v).
Proof.
  intros Hcall.
  destruct (functools.cache_get K_eqb k (functools.entries c)) as [v0|] eqn:Hget.
  - destruct (lru_cache_hit maxsize k f c Hget) as (c' & E & Hm & _ & Hg).
    rewrite E in Hcall. injection Hcall as <- <-.
    split; [exact Hg|]. split; [lia|]. intros Ha. now apply Ha.
  - destruct f as [v1|e] eqn:Hf.
    + destruct (lru_cache_store maxsize k c Hget (eq_refl (Ok v1)))
        as (c' & E & Hm & _ & Hg).
      rewrite E in Hcall. injection Hcall as <- <-.
      split; [exact Hg|]. split; [lia|]. reflexivity.
    + rewrite (lru_cache_raise maxsize k c Hget (eq_refl (Raise e))) in Hcall.
      discriminate.
Qed.

(** Two calls in a row at the same key. *)
Lemma lru_cache_twice (maxsize : nat) (k : K) (f : result V)
    (c c1 : functools.cache K V) (v : V) :
  functools.lru_cache K_eqb maxsize k f c = (Ok v, c1) ->
  exists c2,
    functools.lru_cache K_eqb maxsize k f c1 = (Ok v, c2)
    /\ functools.misses c2 = functools.misses c1
    /\ functools.hits c2 = S (functools.hits c1)
    /\ (functools.misses c2 <= S (functools.misses c))%nat.
Proof.
  intros Hcall.
  destruct (lru_cache_returns maxsize k f c Hcall) as (Hg & Hm & _).
  destruct (lru_cache_hit maxsize k f c1 Hg) as (c2 & E & Hm2 & Hh2 & _).
  exists c2. repeat split; try assumption. lia.
Qed.

Lemma cache_get_In (k : K) (l : list (K * V)) (v : V) :
  functools.cache_get K_eqb k l = Some v ->
  exists k0, In (k0, v) l /\ K_eqb k k0 = true.
Proof.
  induction l as [|[k1 v1] t IH]; simpl; [discriminate|].
  destruct (K_eqb k k1) eqn:E.
  - intros [= <-]. exists k1. auto.
  - intros Hget. destruct (IH Hget) as (k0 & Hin & Hk). exists k0. auto.
Qed.

Lemma unlink_Forall (P : K * V -> Prop) (k : K) (l : list (K * V)) :
  Forall P l -> Forall P (functools.unlink K_eqb k l).
Proof.
  induction 1 as [|[k1 v1] t Hx Ht IH]; simpl; [constructor|].
  destruct (K_eqb k k1); [exact Ht|now constructor].
Qed.

Lemma removelast_Forall {A : Type} (P : A -> Prop) (l : list A) :
  Forall P l -> Forall P (removelast l).
Proof.
  induction 1 as [|x t Hx Ht IH]; simpl; [constructor|].
  destruct t; [constructor|now constructor].
Qed.

(** A property of the entries that holds of what the wrapped function
    returns, and does not tell equal keys apart, is kept by a call. *)
Lemma lru_cache_Forall (P : K * V -> Prop) (maxsize : nat) (k : K)
    (f : result V) (c : functools.cache K V) :
  Forall P (functools.entries c) ->
  (forall v, f = Ok v -> P (k, v)) ->
  (forall k0 v, K_eqb k k0 = true -> P (k0, v) -> P (k, v)) ->
  Forall P (functools.entries (snd (functools.lru_cache K_eqb maxsize k f c))).
Proof.
  intros Hc Hf Heq. unfold functools.lru_cache.
  destruct (functools.cache_get K_eqb k (functools.entries c)) as [v|] eqn:Hget.
  - simpl. constructor; [|now apply unlink_Forall].
    destruct (cache_get_In _ _ Hget) as (k0 & Hin & Hk).
    apply (Heq k0 v Hk). rewrite Forall_forall in Hc. now apply Hc.
  - destruct f as [v|e]; simpl; [|exact Hc].
    constructor; [now apply Hf|].
    destruct (length (functools.entries c) <? maxsize)%nat;
      [exact Hc|now apply removelast_Forall].
Qed.




(** A wrapped function that leaves the store alone is the wrapped call of
    [lru_cache]. *)
Lemma lru_cache_on_heap_pure {H : Type} (maxsize : nat) (k : K)
    (f : result V) (c : functools.cache K V) (h : H) :
  functools.lru_cache_on_heap K_eqb maxsize k (fun h0 => (f, h0)) c h
  = (fst (functools.lru_cache K_eqb maxsize k f c),
     snd (functools.lru_cache K_eqb maxsize k f c), h).
Proof.
  unfold functools.lru_cache_on_heap, functools.lru_cache.
  destruct (functools.cache_get K_eqb k (functools.entries c));
    [reflexivity|].
  destruct f; reflexivity.
Qed.
End LruCacheFacts.

Lemma key_eqb_refl (k : nat * nat) : key_eqb k k = true.
Proof.
  unfold key_eqb. now rewrite !Nat.eqb_refl.
Qed.

Lemma key_eqb_eq (k k0 : nat * nat) :
  key_eqb k k0 = true -> k = k0.
Proof.
  destruct k as [a b], k0 as [a0 b0]. unfold key_eqb.
  simpl. intros E. apply andb_prop in E. destruct E as [Ea Eb].
  apply Nat.eqb_eq in Ea, Eb. congruence.
Qed.

Section CacheHistory.
Variable f : Slide -> result Mask.

Lemma call_in_turn_computed (all calls : list (nat * Slide))
    (c : mask_cache) :
  incl calls all ->
  Forall (computed f all) (functools.entries c) ->
  Forall (computed f all)
         (functools.entries (call_in_turn (lru_cache_100 f) calls c)).
Proof.
  revert c. induction calls as [|[self slide] rest IH]; intros c Hincl Hc;
    simpl; [exact Hc|].
  apply IH; [intros x Hx; apply Hincl; now right|].
  unfold lru_cache_100 at 1.
  apply lru_cache_Forall; [exact Hc| |].
  - intros v Hv. exists self, slide. split; [apply Hincl; now left|auto].
  - intros k0 v Hk (self' & slide' & Hin & Hkey & Hv).
    apply key_eqb_eq in Hk. exists self', slide'. simpl in *.
    split; [exact Hin|]. split; [congruence|exact Hv].
Qed.

(** From an empty cache, after whatever calls on slides that have not
    changed (a slide is known by its identity), the cache agrees with the
    computation on every such slide. *)
Lemma cache_agrees_after_calls (calls : list (nat * Slide))
    (self : nat) (slide : Slide) :
  (forall self' slide', In (self', slide') calls ->
                        slide_id slide' = slide_id slide -> slide' = slide) ->
  functools.agrees key_eqb
    (call_in_turn (lru_cache_100 f) calls (functools.cache_clear _ _))
    (self, slide_id slide) (f slide).
Proof.
  intros Hsame v Hget.
  destruct (cache_get_In _ _ _ Hget) as (k0 & Hin & Hk).
  apply key_eqb_eq in Hk. subst k0.
  pose proof (@call_in_turn_computed calls calls (functools.cache_clear _ _)
                (incl_refl _) (Forall_nil _)) as Hall.
  rewrite Forall_forall in Hall.
  destruct (Hall _ Hin) as (self' & slide' & Hin' & Hkey & Hv).
  simpl in Hkey, Hv. injection Hkey as _ Hid.
  now rewrite <- (Hsame self' slide' Hin' (eq_sym Hid)).
Qed.
End CacheHistory.

(** Reading a cache through a function on its values. *)
Section CacheRead.
Context {K V W : Type} (K_eqb : K -> K -> bool) (read : V -> W).

Lemma cache_get_map (k : K) (l : list (K * V)) :
  functools.cache_get K_eqb k (map (fun entry => (fst entry, read (snd entry))) l)
  = option_map read (functools.cache_get K_eqb k l).
Proof.
  induction l as [|[k1 v1] t IH]; simpl; [reflexivity|].
  destruct (K_eqb k k1); [reflexivity|exact IH].
Qed.

Lemma unlink_map (k : K) (l : list (K * V)) :
  functools.unlink K_eqb k (map (fun entry => (fst entry, read (snd entry))) l)
  = map (fun entry => (fst entry, read (snd entry))) (functools.unlink K_eqb k l).
Proof.
  induction l as [|[k1 v1] t IH]; simpl; [reflexivity|].
  destruct (K_eqb k k1); [reflexivity|]. simpl. now rewrite IH.
Qed.
End CacheRead.

Lemma removelast_of_map {A B : Type} (g : A -> B) (l : list A) :
  removelast (map g l) = map g (removelast l).
Proof.
  induction l as [|x t IH]; [reflexivity|].
  destruct t as [|y t']; [reflexivity|].
  cbn [map removelast] in *. now rewrite IH.
Qed.

(** ** Mask strategies *)

Section MaskFacts.
Context `{Imaging}.

Lemma biggest_box_no_regions (slide : Slide) :
  regions_from_binary_mask (tissue_mask_filters (thumbnail slide)) = [] ->
  BiggestTissueBoxMask._mask_wrapped slide = Raise ValueError.
Proof.
  intros E. unfold BiggestTissueBoxMask._mask_wrapped. now rewrite E.
Qed.

(** C4: on a slide whose tissue mask has no region, the computation of the
    box mask raises the [ValueError] of [_regions]; called through the cache
    (one that holds nothing stale for the slide) the strategy raises it too,
    and no mask, empty or other, is returned or stored. *)
Theorem biggest_box_blank_slide_raises
    (self : nat) (slide : Slide) (c : mask_cache) :
  regions_from_binary_mask (tissue_mask_filters (thumbnail slide)) = [] ->
  functools.agrees key_eqb c (self, slide_id slide)
                   (BiggestTissueBoxMask._mask_wrapped slide) ->
  BiggestTissueBoxMask._mask_wrapped slide = Raise ValueError
  /\ fst (BiggestTissueBoxMask.__call__ self slide c) = Raise ValueError
  /\ functools.entries (snd (BiggestTissueBoxMask.__call__ self slide c))
     = functools.entries c.
Proof.
  intros Hblank Hagree.
  pose proof (biggest_box_no_regions slide Hblank) as Hraise.
  split; [exact Hraise|].
  unfold BiggestTissueBoxMask.__call__, BiggestTissueBoxMask._mask,
    lru_cache_100.
  destruct (functools.cache_get key_eqb
              (self, slide_id slide) (functools.entries c)) as [v|] eqn:Hget.
  - specialize (Hagree v Hget). rewrite Hraise in Hagree. discriminate.
  - rewrite (lru_cache_raise key_eqb 100 _ c Hget Hraise).
    simpl. auto.
Qed.


(** The cache of masks is the cache of arrays read through the heap: as
    long as the cache refers to arrays of the heap, a call on the heap,
    read through the heap it leaves, is the call on the masks. *)
Lemma call_on_heap_reads_as_call
    (self : nat) (slide : Slide) (c c' : array_cache)
    (h h' : heap (list bool)) (res : result ref) :
  Forall (fun entry : nat * nat * ref => (snd entry < length h)%nat)
         (functools.entries c) ->
  BiggestTissueBoxMask.__call__on_heap self slide c h = (res, c', h') ->
  BiggestTissueBoxMask.__call__ self slide (read_cache h c)
  = (match res with
     | Ok r => Ok (contents h' r)
     | Raise e => Raise e
     end, read_cache h' c')
  /\ Forall (fun entry : nat * nat * ref => (snd entry < length h')%nat)
            (functools.entries c').
Proof.
  intros Hvalid Hcall.
  unfold BiggestTissueBoxMask.__call__, BiggestTissueBoxMask._mask,
    lru_cache_100, functools.lru_cache.
  unfold BiggestTissueBoxMask.__call__on_heap,
    BiggestTissueBoxMask._mask_on_heap, functools.lru_cache_on_heap in Hcall.
  unfold read_cache at 1 2 3 4 5 6 7.
  cbn [functools.entries functools.hits functools.misses].
  rewrite cache_get_map.
  destruct (functools.cache_get key_eqb (self, slide_id slide)
              (functools.entries c)) as [r0|] eqn:Hget; cbn [option_map].
  - injection Hcall as <- <- <-. split.
    + unfold read_cache.
      cbn [functools.entries functools.hits functools.misses map fst snd].
      now rewrite unlink_map.
    + cbn [functools.entries]. constructor.
      * destruct (cache_get_In _ _ _ Hget) as (k0 & Hin & _).
        rewrite Forall_forall in Hvalid. exact (Hvalid _ Hin).
      * now apply unlink_Forall.
  - unfold BiggestTissueBoxMask._mask_wrapped_on_heap in Hcall.
    destruct (BiggestTissueBoxMask._mask_wrapped slide) as [m|e].
    + cbn [alloc] in Hcall. injection Hcall as <- <- <-.
      assert (Hsame : forall l : list (nat * nat * ref),
                Forall (fun entry => (snd entry < length h)%nat) l ->
                map (fun entry => (fst entry, contents (h ++ [m]) (snd entry))) l
                = map (fun entry => (fst entry, contents h (snd entry))) l).
      { intros l Hl. apply map_ext_Forall.
        eapply Forall_impl; [|exact Hl].
        intros [k0 r0] Hr. cbn [fst snd] in *. f_equal.
        unfold contents. now apply app_nth1. }
      split.
      * unfold read_cache.
        cbn [functools.entries functools.hits functools.misses map fst snd].
        assert (Hc : contents (h ++ [m]) (length h) = m)
          by (unfold contents; apply nth_middle).
        rewrite length_map.
        f_equal; [f_equal; symmetry; exact Hc|].
        f_equal. f_equal; [f_equal; symmetry; exact Hc|].
        destruct (length (functools.entries c) <? 100)%nat.
        -- symmetry. now apply Hsame.
        -- rewrite removelast_of_map. symmetry.
           apply Hsame. now apply removelast_Forall.
      * cbn [functools.entries]. constructor.
        -- cbn [snd]. rewrite length_app. cbn [length]. lia.
        -- assert (Hgrow : Forall (fun entry : nat * nat * ref =>
                              (snd entry < length (h ++ [m]))%nat)
                             (functools.entries c)).
           { eapply Forall_impl; [|exact Hvalid].
             intros entry Hr. cbv beta in Hr. rewrite length_app.
             cbn [length]. lia. }
           destruct (length (functools.entries c) <? 100)%nat;
             [exact Hgrow|now apply removelast_Forall].
    + injection Hcall as <- <- <-. split; [reflexivity|exact Hvalid].
Qed.

Lemma call_in_turn_on_heap_reads_as_calls (calls : list (nat * Slide))
    (c : array_cache) (h : heap (list bool)) :
  Forall (fun entry : nat * nat * ref => (snd entry < length h)%nat)
         (functools.entries c) ->
  read_cache (snd (call_in_turn_on_heap calls c h))
             (fst (call_in_turn_on_heap calls c h))
  = call_in_turn BiggestTissueBoxMask.__call__ calls (read_cache h c).
Proof.
  revert c h. induction calls as [|[self slide] rest IH]; intros c h Hvalid;
    [reflexivity|].
  cbn [call_in_turn_on_heap call_in_turn].
  destruct (BiggestTissueBoxMask.__call__on_heap self slide c h)
    as [[res c'] h'] eqn:Hcall.
  destruct (call_on_heap_reads_as_call self slide c h Hvalid Hcall)
    as (Eread & Hvalid').
  rewrite Eread. cbn [snd]. now apply IH.
Qed.

(** From an empty cache, after whatever calls on slides that have not
    changed, no array being written in between, the cache holds nothing
    stale. *)
Lemma agrees_on_heap_after_calls (calls : list (nat * Slide))
    (self : nat) (slide : Slide) :
  (forall self' slide', In (self', slide') calls ->
                        slide_id slide' = slide_id slide -> slide' = slide) ->
  BiggestTissueBoxMask.agrees_on_heap
    (fst (call_in_turn_on_heap calls (functools.cache_clear _ _) []))
    (snd (call_in_turn_on_heap calls (functools.cache_clear _ _) []))
    self slide.
Proof.
  intros Hsame r Hget.
  pose proof (@cache_agrees_after_calls BiggestTissueBoxMask._mask_wrapped
                calls self slide Hsame) as Hagree.
  apply Hagree.
  change (call_in_turn (lru_cache_100 BiggestTissueBoxMask._mask_wrapped)
            calls (functools.cache_clear (nat * nat) Mask))
    with (call_in_turn BiggestTissueBoxMask.__call__ calls
            (read_cache [] (functools.cache_clear _ _))).
  rewrite <- call_in_turn_on_heap_reads_as_calls by constructor.
  unfold read_cache. cbn [functools.entries].
  rewrite cache_get_map, Hget. reflexivity.
Qed.
End MaskFacts.

Lemma cache_clear_agrees {K V : Type} (K_eqb : K -> K -> bool) (k : K)
    (f : result V) :
  functools.agrees K_eqb (functools.cache_clear K V) k f.
Proof. intros v Hv. discriminate Hv. Qed.

Lemma biggest_box_blank_slide_raises_witness :
  @regions_from_binary_mask Demo.imaging
    (@tissue_mask_filters Demo.imaging (thumbnail Demo.slide_blank)) = []
  /\ fst (@BiggestTissueBoxMask.__call__ Demo.imaging 7 Demo.slide_blank
            (functools.cache_clear _ _)) = Raise ValueError.
Proof.
  assert (Hblank : @regions_from_binary_mask Demo.imaging
            (@tissue_mask_filters Demo.imaging (thumbnail Demo.slide_blank))
            = []) by reflexivity.
  split; [exact Hblank|].
  exact (proj1 (proj2 (@biggest_box_blank_slide_raises Demo.imaging 7
           Demo.slide_blank (functools.cache_clear _ _) Hblank
           (@cache_clear_agrees _ _ _ _ _)))).
Defined.



(** ** IEEE binary64 facts *)

Lemma digits2_pos_size (p : positive) : digits2_pos p = Pos.size p.
Proof. induction p; simpl; congruence. Qed.

Lemma Zdigits2_log2 (m : Z) : 0 < m -> Zdigits2 m = Z.log2 m + 1.
Proof.
  destruct m as [|p|p]; try lia. intros _. simpl.
  rewrite digits2_pos_size. destruct p; simpl; lia.
Qed.

Lemma Zdigits2_lower (m : Z) : 0 < m -> 2 ^ (Zdigits2 m - 1) <= m.
Proof.
  intros Hm. rewrite (Zdigits2_log2 Hm).
  replace (Z.log2 m + 1 - 1) with (Z.log2 m) by lia.
  apply (Z.log2_spec m Hm).
Qed.

Lemma Zdigits2_upper (m : Z) : 0 <= m -> m < 2 ^ Zdigits2 m.
Proof.
  intros Hm. destruct (Z.eq_dec m 0) as [->|Hne]; [reflexivity|].
  rewrite Zdigits2_log2 by lia. apply Z.log2_spec. lia.
Qed.

Lemma Zdigits2_nonneg (m : Z) : 0 <= Zdigits2 m.
Proof. destruct m; simpl; lia. Qed.

Lemma Zdigits2_le (m k : Z) : 0 <= k -> 0 <= m < 2 ^ k -> Zdigits2 m <= k.
Proof.
  intros Hk [Hm Hlt]. destruct (Z.eq_dec m 0) as [->|Hne]; [exact Hk|].
  pose proof (@Zdigits2_lower m ltac:(lia)) as Hlow.
  pose proof (Zdigits2_nonneg m).
  destruct (Z_lt_le_dec k (Zdigits2 m)) as [Hgt|]; [|assumption].
  assert (2 ^ k <= 2 ^ (Zdigits2 m - 1)) by (apply Z.pow_le_mono_r; lia).
  lia.
Qed.

Lemma Zdigits2_ge (m k : Z) : 0 <= k -> 2 ^ k <= m -> k + 1 <= Zdigits2 m.
Proof.
  intros Hk Hle.
  assert (Hm : 0 < m) by (pose proof (Z.pow_pos_nonneg 2 k); lia).
  pose proof (@Zdigits2_upper m ltac:(lia)) as Hup.
  pose proof (Zdigits2_nonneg m).
  destruct (Z_lt_le_dec k (Zdigits2 m)) as [|Hge]; [lia|].
  assert (2 ^ Zdigits2 m <= 2 ^ k) by (apply Z.pow_le_mono_r; lia).
  lia.
Qed.

Lemma shr_1_div2 (mrs : shr_record) :
  0 <= shr_m mrs -> shr_m (shr_1 mrs) = shr_m mrs / 2.
Proof.
  destruct mrs as [m r s]. simpl. intros Hm.
  rewrite <- Z.div2_div.
  destruct m as [|[p|p|]|p]; try reflexivity; lia.
Qed.

Lemma iter_shr_1_div (p : positive) (mrs : shr_record) :
  0 <= shr_m mrs ->
  shr_m (iter_pos shr_1 p mrs) = shr_m mrs / 2 ^ Zpos p.
Proof.
  revert mrs. induction p as [p IH|p IH|]; intros mrs Hm; simpl iter_pos.
  - assert (H1 : 0 <= shr_m (shr_1 mrs))
      by (rewrite shr_1_div2 by assumption; apply Z.div_pos; lia).
    assert (H2 : 0 <= shr_m (iter_pos shr_1 p (shr_1 mrs)))
      by (rewrite IH by assumption; apply Z.div_pos; [lia|apply Z.pow_pos_nonneg; lia]).
    rewrite IH, IH, shr_1_div2 by assumption.
    pose proof (Z.pow_pos_nonneg 2 (Zpos p) ltac:(lia) ltac:(lia)).
    rewrite !Z.div_div by lia. f_equal.
    replace (Zpos p~1) with (Zpos p + Zpos p + 1) by lia.
    rewrite 2!Z.pow_add_r by lia. change (2 ^ 1) with 2. ring.
  - assert (H2 : 0 <= shr_m (iter_pos shr_1 p mrs))
      by (rewrite IH by assumption; apply Z.div_pos; [lia|apply Z.pow_pos_nonneg; lia]).
    rewrite IH, IH by assumption.
    pose proof (Z.pow_pos_nonneg 2 (Zpos p) ltac:(lia) ltac:(lia)).
    rewrite !Z.div_div by lia. f_equal.
    replace (Zpos p~0) with (Zpos p + Zpos p) by lia.
    rewrite Z.pow_add_r by lia. ring.
  - rewrite shr_1_div2 by assumption. reflexivity.
Qed.

Lemma shr_record_of_loc_m (m : Z) (l : location) :
  shr_m (shr_record_of_loc m l) = m.
Proof. destruct l as [|[]]; reflexivity. Qed.

(** A right shift to the exponent [fexp]: the exponent does not go down,
    and the mantissa is divided accordingly. *)
Lemma shr_fexp_spec (m e : Z) (l : location) :
  0 <= m ->
  (fexp prec emax (Zdigits2 m + e) - e <= 0
   /\ shr_m (fst (shr_fexp prec emax m e l)) = m
   /\ snd (shr_fexp prec emax m e l) = e)
  \/ (0 < fexp prec emax (Zdigits2 m + e) - e
      /\ shr_m (fst (shr_fexp prec emax m e l))
         = m / 2 ^ (fexp prec emax (Zdigits2 m + e) - e)
      /\ snd (shr_fexp prec emax m e l)
         = e + (fexp prec emax (Zdigits2 m + e) - e)).
Proof.
  intros Hm. unfold shr_fexp, shr.
  destruct (fexp prec emax (Zdigits2 m + e) - e) as [|p|p] eqn:En.
  - left. simpl. rewrite shr_record_of_loc_m. lia.
  - right. simpl. rewrite iter_shr_1_div
      by (rewrite shr_record_of_loc_m; exact Hm).
    rewrite shr_record_of_loc_m. lia.
  - left. simpl. rewrite shr_record_of_loc_m. lia.
Qed.

Lemma round_nearest_even_bounds (m : Z) (l : location) :
  m <= round_nearest_even m l <= m + 1.
Proof.
  destruct l as [|[]]; simpl; try lia. destruct (Z.even m); lia.
Qed.

Lemma fexp_eq (e : Z) : fexp prec emax e = Z.max (e - 53) (-1074).
Proof. reflexivity. Qed.

Lemma div_pow2_lt (m a n : Z) :
  0 <= m < 2 ^ a -> 0 < n <= a -> 0 <= m / 2 ^ n < 2 ^ (a - n).
Proof.
  intros [Hm Hlt] Hn.
  pose proof (Z.pow_pos_nonneg 2 n ltac:(lia) ltac:(lia)).
  split; [apply Z.div_pos; lia|].
  apply Z.div_lt_upper_bound; [lia|].
  rewrite <- Z.pow_add_r by lia. now replace (n + (a - n)) with a by lia.
Qed.

Lemma Zdigits2_mono (a b : Z) : 0 < a <= b -> Zdigits2 a <= Zdigits2 b.
Proof.
  intros [Ha Hab].
  pose proof (Zdigits2_lower Ha) as Hlow.
  pose proof (Zdigits2_log2 Ha). pose proof (Z.log2_nonneg a).
  assert (Zdigits2 a - 1 + 1 <= Zdigits2 b)
    by (apply Zdigits2_ge; lia).
  lia.
Qed.

(** One shift keeps a bound on the value and on the exponent. *)
Lemma shr_fexp_upper (m e : Z) (l : location) (a S : Z) :
  0 <= m < 2 ^ (a - e) -> e <= S -> S <= a <= S + 53 -> -1074 <= S ->
  0 <= shr_m (fst (shr_fexp prec emax m e l))
    < 2 ^ (a - snd (shr_fexp prec emax m e l))
  /\ e <= snd (shr_fexp prec emax m e l) <= S.
Proof.
  intros Hm He Ha HS.
  pose proof (@Zdigits2_le m (a - e) ltac:(lia) Hm) as Hd.
  destruct (@shr_fexp_spec m e l ltac:(lia)) as [(Hn & -> & ->)|(Hn & -> & ->)];
    rewrite fexp_eq in Hn.
  - split; lia.
  - rewrite fexp_eq.
    set (n := Z.max (Zdigits2 m + e - 53) (-1074) - e) in *.
    assert (Hna : n <= a - e) by lia.
    pose proof (@div_pow2_lt m (a - e) n Hm ltac:(lia)) as Hq.
    replace (a - (e + n)) with (a - e - n) by lia.
    split; [exact Hq|lia].
Qed.

(** One shift of a number in the normal range leaves at least one digit. *)
Lemma shr_fexp_normal (m e : Z) (l : location) :
  0 < m -> -1021 <= Zdigits2 m + e ->
  1 <= shr_m (fst (shr_fexp prec emax m e l))
  /\ Zdigits2 m + e
     <= Zdigits2 (shr_m (fst (shr_fexp prec emax m e l)))
        + snd (shr_fexp prec emax m e l).
Proof.
  intros Hm Hnorm.
  destruct (@shr_fexp_spec m e l ltac:(lia)) as [(Hn & -> & ->)|(Hn & -> & ->)];
    rewrite fexp_eq in Hn.
  - split; lia.
  - rewrite fexp_eq.
    set (n := Z.max (Zdigits2 m + e - 53) (-1074) - e) in *.
    assert (En : n = Zdigits2 m - 53) by lia.
    pose proof (Zdigits2_lower Hm) as Hlow.
    pose proof (Z.pow_pos_nonneg 2 n ltac:(lia) ltac:(lia)) as Hpos.
    assert (Hq : 2 ^ 52 <= m / 2 ^ n).
    { apply Z.div_le_lower_bound; [lia|].
      rewrite <- Z.pow_add_r by lia.
      now replace (n + 52) with (Zdigits2 m - 1) by lia. }
    pose proof (@Zdigits2_ge (m / 2 ^ n) 52 ltac:(lia) Hq).
    split; [|lia].
    assert (0 < 2 ^ 52) by reflexivity. lia.
Qed.

(** Rounding a bounded non-negative value gives a zero or a finite float of
    the sign asked for. *)
Lemma binary_round_aux_bounded (sx : bool) (mx ex : Z) (lx : location) (S : Z) :
  0 <= mx < 2 ^ (S - ex) -> ex <= S -> -1074 <= S <= 971 ->
  binary_round_aux prec emax sx mx ex lx = S754_zero sx
  \/ exists m e,
       binary_round_aux prec emax sx mx ex lx = S754_finite sx m e
       /\ ex <= e <= S /\ Zpos m < 2 ^ (S + 1 - e).
Proof.
  intros Hm He HS. unfold binary_round_aux.
  pose proof (@shr_fexp_upper mx ex lx S S Hm He ltac:(lia) ltac:(lia)) as H1.
  destruct (shr_fexp prec emax mx ex lx) as [mrs' e'].
  cbn [fst snd] in H1. destruct H1 as (Hm' & He').
  pose proof (round_nearest_even_bounds (shr_m mrs') (loc_of_shr_record mrs'))
    as Hr.
  set (m1 := round_nearest_even (shr_m mrs') (loc_of_shr_record mrs')) in *.
  assert (Hm1 : 0 <= m1 < 2 ^ (S + 1 - e')).
  { replace (S + 1 - e') with (Z.succ (S - e')) by lia.
    rewrite Z.pow_succ_r by lia. lia. }
  pose proof (@shr_fexp_upper m1 e' loc_Exact (S + 1) S Hm1 ltac:(lia)
                ltac:(lia) ltac:(lia)) as H2.
  destruct (shr_fexp prec emax m1 e' loc_Exact) as [mrs'' e''].
  cbn [fst snd] in H2. destruct H2 as (Hm'' & He'').
  destruct (shr_m mrs'') as [|m|m] eqn:Em; [now left| |lia].
  right. exists m, e''.
  replace (e'' <=? emax - prec) with true
    by (symmetry; apply Z.leb_le; change (emax - prec) with 971; lia).
  split; [reflexivity|]. split; lia.
Qed.

(** Rounding a positive value of the normal range does not give zero. *)
Lemma binary_round_aux_nonzero (sx : bool) (mx ex : Z) (lx : location) :
  0 < mx -> -1021 <= Zdigits2 mx + ex ->
  binary_round_aux prec emax sx mx ex lx <> S754_zero sx.
Proof.
  intros Hm Hnorm. unfold binary_round_aux.
  pose proof (@shr_fexp_normal mx ex lx Hm Hnorm) as H1.
  destruct (shr_fexp prec emax mx ex lx) as [mrs' e'].
  cbn [fst snd] in H1. destruct H1 as (Hm' & Hd').
  pose proof (round_nearest_even_bounds (shr_m mrs') (loc_of_shr_record mrs'))
    as Hr.
  set (m1 := round_nearest_even (shr_m mrs') (loc_of_shr_record mrs')) in *.
  pose proof (@Zdigits2_mono (shr_m mrs') m1 ltac:(lia)) as Hmono.
  pose proof (@shr_fexp_normal m1 e' loc_Exact ltac:(lia) ltac:(lia)) as H2.
  destruct (shr_fexp prec emax m1 e' loc_Exact) as [mrs'' e''].
  cbn [fst snd] in H2. destruct H2 as (Hm'' & _).
  destruct (shr_m mrs'') as [|m|m]; [lia| |discriminate].
  destruct (e'' <=? emax - prec); discriminate.
Qed.

Lemma iter_xO_pow2 (p d : positive) :
  Zpos (Pos.iter xO p d) = Zpos p * 2 ^ Zpos d.
Proof.
  induction d as [|d IH] using Pos.peano_ind.
  - simpl. lia.
  - rewrite Pos.iter_succ, Pos2Z.inj_xO, IH, Pos2Z.inj_succ, Z.pow_succ_r by lia.
    ring.
Qed.

(** The conversion of a machine integer: zero, or a positive finite float
    whose exponent and value are bounded. *)
Lemma of_uint63_SF (n : int) :
  (to_Z n = 0 /\ Prim2SF (of_uint63 n) = S754_zero false)
  \/ (0 < to_Z n
      /\ exists m e, Prim2SF (of_uint63 n) = S754_finite false m e
                     /\ -52 <= e <= 63 /\ Zpos m < 2 ^ (64 - e)).
Proof.
  rewrite of_uint63_spec.
  pose proof (Uint63.to_Z_bounded n) as Hb.
  change wB with (2 ^ 63) in Hb.
  destruct (to_Z n) as [|p|p]; [now left| |lia].
  right. split; [lia|]. simpl binary_normalize. unfold binary_round.
  pose proof (@Zdigits2_le (Zpos p) 63 ltac:(lia) ltac:(lia)) as Hd.
  pose proof (@Zdigits2_lower (Zpos p) ltac:(lia)) as Hlow.
  pose proof (@Zdigits2_upper (Zpos p) ltac:(lia)) as Hup.
  pose proof (@Zdigits2_ge (Zpos p) 0 ltac:(lia) ltac:(lia)) as Hd1.
  simpl Zdigits2 in *. rewrite fexp_eq. unfold shl_align.
  set (dp := Zpos (digits2_pos p)) in *.
  assert (Emax : Z.max (dp + 0 - 53) (-1074) = dp - 53) by lia.
  rewrite Emax.
  destruct (dp - 53 - 0) as [|d|d] eqn:Ed.
  - pose proof (@binary_round_aux_nonzero false (Zpos p) 0 loc_Exact
                  ltac:(lia) ltac:(simpl; fold dp; lia)) as Hnz.
    destruct (@binary_round_aux_bounded false (Zpos p) 0 loc_Exact 63
                ltac:(lia) ltac:(lia) ltac:(lia))
      as [Hz|(m & e & E & He & Hm)]; [contradiction|].
    exists m, e. rewrite E. repeat split; try lia.
    now replace (64 - e) with (63 + 1 - e) by lia.
  - pose proof (@binary_round_aux_nonzero false (Zpos p) 0 loc_Exact
                  ltac:(lia) ltac:(simpl; fold dp; lia)) as Hnz.
    destruct (@binary_round_aux_bounded false (Zpos p) 0 loc_Exact 63
                ltac:(lia) ltac:(lia) ltac:(lia))
      as [Hz|(m & e & E & He & Hm)]; [contradiction|].
    exists m, e. rewrite E. repeat split; try lia.
    now replace (64 - e) with (63 + 1 - e) by lia.
  - assert (Hmz : 0 < Zpos (Pos.iter xO p d) < 2 ^ 53).
    { rewrite iter_xO_pow2. split; [lia|].
      assert (Zpos p * 2 ^ Zpos d < 2 ^ dp * 2 ^ Zpos d)
        by (apply Z.mul_lt_mono_pos_r; [apply Z.pow_pos_nonneg; lia|lia]).
      rewrite <- Z.pow_add_r in H by lia.
      now replace (dp + Zpos d) with 53 in H by lia. }
    pose proof (Zdigits2_nonneg (Zpos (Pos.iter xO p d))) as Hdn.
    pose proof (@binary_round_aux_nonzero false (Zpos (Pos.iter xO p d))
                  (dp - 53) loc_Exact ltac:(lia) ltac:(lia)) as Hnz.
    assert (Hle : 2 ^ 53 <= 2 ^ (63 - (dp - 53)))
      by (apply Z.pow_le_mono_r; lia).
    destruct (@binary_round_aux_bounded false (Zpos (Pos.iter xO p d))
                (dp - 53) loc_Exact 63 ltac:(lia) ltac:(lia) ltac:(lia))
      as [Hz|(m & e & E & He & Hm)]; [contradiction|].
    exists m, e. rewrite E. repeat split; try lia.
    now replace (64 - e) with (63 + 1 - e) by lia.
Qed.

(** The quotient of two such floats neither overflows nor changes sign. *)
Lemma SFdiv_bounded (m1 m2 : positive) (e1 e2 : Z) :
  Zpos m1 < 2 ^ (64 - e1) -> e1 <= 63 -> -52 <= e2 ->
  SFdiv prec emax (S754_finite false m1 e1) (S754_finite false m2 e2)
  = S754_zero false
  \/ exists m e,
       SFdiv prec emax (S754_finite false m1 e1) (S754_finite false m2 e2)
       = S754_finite false m e.
Proof.
  intros Hm1 He1 He2. unfold SFdiv, SFdiv_core_binary.
  set (e' := Z.min (fexp prec emax (Zdigits2 (Zpos m1) + e1
                                    - (Zdigits2 (Zpos m2) + e2)))
                   (e1 - e2)).
  set (s := e1 - e2 - e').
  set (m' := match s with
             | Z0 => Zpos m1
             | Zpos _ => Z.shiftl (Zpos m1) s
             | Zneg _ => Z0
             end).
  assert (He' : e' <= e1 - e2) by apply Z.le_min_r.
  assert (Hs : 0 <= s) by (unfold s; lia).
  assert (Em' : m' = Zpos m1 * 2 ^ s).
  { unfold m'. destruct s as [|p|p] eqn:Es; [lia| |lia].
    apply Z.shiftl_mul_pow2. lia. }
  assert (Hm' : 0 <= m' < 2 ^ (116 - e')).
  { rewrite Em'.
    pose proof (Z.pow_pos_nonneg 2 s ltac:(lia) Hs) as Hpos.
    split; [lia|].
    assert (Zpos m1 * 2 ^ s < 2 ^ (64 - e1) * 2 ^ s)
      by (apply Z.mul_lt_mono_pos_r; assumption).
    rewrite <- Z.pow_add_r in H by lia.
    assert (2 ^ (64 - e1 + s) <= 2 ^ (116 - e'))
      by (apply Z.pow_le_mono_r; unfold s; lia).
    lia. }
  pose proof (Z_div_mod m' (Zpos m2) ltac:(lia)) as Hdiv.
  destruct (Z.div_eucl m' (Zpos m2)) as [q r].
  destruct Hdiv as (Eq & Hr).
  assert (Hq : 0 <= q < 2 ^ (116 - e')) by nia.
  destruct (@binary_round_aux_bounded false q e' (new_location (Zpos m2) r)
              116 Hq ltac:(lia) ltac:(lia))
    as [Hz|(m & e & E & _)].
  - left. exact Hz.
  - right. exists m, e. exact E.
Qed.

Lemma finite_nonneg_SF (x : float) :
  (Prim2SF x = S754_zero false \/ exists m e, Prim2SF x = S754_finite false m e)
  -> classify x = PZero \/ classify x = PNormal \/ classify x = PSubn.
Proof.
  rewrite classify_spec. unfold SF64classify.
  intros [E|(m & e & E)]; rewrite E; unfold SFclassify; [now left|].
  destruct (Zpos (digits2_pos m) =? prec); [right; left|right; right]; reflexivity.
Qed.

Lemma SF_finite_nonneg (x : float) :
  classify x = PZero \/ classify x = PNormal \/ classify x = PSubn ->
  Prim2SF x = S754_zero false \/ exists m e, Prim2SF x = S754_finite false m e.
Proof.
  rewrite classify_spec. unfold SF64classify.
  destruct (Prim2SF x) as [[|]|[|]| |[|] m e]; unfold SFclassify;
    try (destruct (Zpos (digits2_pos m) =? prec));
    intros [H|[H|H]]; try discriminate H; eauto.
Qed.

(** The quotient of a machine integer by a non-zero one. *)
Lemma div_of_uint63_SF (a b : int) :
  to_Z b <> 0 ->
  Prim2SF (of_uint63 a / of_uint63 b)%float = S754_zero false
  \/ exists m e,
       Prim2SF (of_uint63 a / of_uint63 b)%float = S754_finite false m e.
Proof.
  intros Hb. rewrite FloatAxioms.div_spec. unfold SF64div.
  destruct (of_uint63_SF b) as [(Hb0 & _)|(_ & m2 & e2 & E2 & He2 & Hm2)];
    [contradiction|].
  rewrite E2.
  destruct (of_uint63_SF a) as [(_ & E1)|(_ & m1 & e1 & E1 & He1 & Hm1)];
    rewrite E1.
  - left. reflexivity.
  - apply SFdiv_bounded; lia.
Qed.

(** A finite float that is not negative, times zero, is zero. *)
Lemma mul_zero_r_SF (x : float) :
  (Prim2SF x = S754_zero false \/ exists m e, Prim2SF x = S754_finite false m e)
  -> (x * 0)%float = 0%float.
Proof.
  intros Hx. apply Prim2SF_inj. rewrite FloatAxioms.mul_spec. unfold SF64mul.
  change (Prim2SF 0) with (S754_zero false).
  destruct Hx as [E|(m & e & E)]; rewrite E; reflexivity.
Qed.

Lemma finite_nonneg_iff (x : float) :
  finite_nonneg x = true
  <-> (Prim2SF x = S754_zero false
       \/ exists m e, Prim2SF x = S754_finite false m e).
Proof.
  split.
  - intros Hx. apply SF_finite_nonneg. unfold finite_nonneg in Hx.
    destruct (classify x); try discriminate Hx; auto.
  - intros Hx. unfold finite_nonneg.
    destruct (finite_nonneg_SF x Hx) as [->|[->| ->]]; reflexivity.
Qed.

Lemma mul_zero_r (x : float) :
  finite_nonneg x = true -> (x * 0)%float = 0%float.
Proof. intros Hx. now apply mul_zero_r_SF, finite_nonneg_iff. Qed.

(** True division by a positive [int] returns a finite float that is not
    negative. *)
Lemma truediv_finite (a b : Z) :
  0 < b < 2 ^ 63 ->
  exists q, truediv a b = Ok q /\ finite_nonneg q = true.
Proof.
  intros Hb. unfold truediv.
  destruct (b =? 0) eqn:E; [apply Z.eqb_eq in E; lia|].
  eexists. split; [reflexivity|].
  apply finite_nonneg_iff, div_of_uint63_SF.
  rewrite Uint63.of_Z_spec. change wB with (2 ^ 63).
  rewrite Z.mod_small; lia.
Qed.

Lemma truediv_zero (a : Z) : truediv a 0 = Raise ZeroDivisionError.
Proof. reflexivity. Qed.

(** ** Masks of the scorer *)

Lemma nth_error_combine {A B : Type} (l1 : list A) (l2 : list B) (n : nat) :
  nth_error (combine l1 l2) n
  = match nth_error l1 n, nth_error l2 n with
    | Some a, Some b => Some (a, b)
    | _, _ => None
    end.
Proof.
  revert l2 n. induction l1 as [|a t IH]; intros [|b t2] [|n]; simpl;
    try reflexivity.
  - now destruct (nth_error t n).
  - apply IH.
Qed.

(** The difference is on exactly where the minuend is on and the subtrahend
    is off. *)
Lemma pixel_mask_difference (minuend subtrahend : Mask) (r c : nat) :
  pixel (mask_difference minuend subtrahend) r c
  = match pixel minuend r c, pixel subtrahend r c with
    | Some a, Some b => Some (a && negb b)
    | _, _ => None
    end.
Proof.
  unfold pixel, mask_difference.
  rewrite nth_error_map, nth_error_combine.
  destruct (nth_error minuend r) as [row1|]; [|reflexivity].
  destruct (nth_error subtrahend r) as [row2|]; simpl.
  - rewrite nth_error_map, nth_error_combine.
    destruct (nth_error row1 c) as [a|]; [|reflexivity].
    destruct (nth_error row2 c) as [b|]; reflexivity.
  - destruct (nth_error row1 c); reflexivity.
Qed.

(** A grid without a pixel has nothing in its rows. *)
Lemma concat_no_pixel {A : Type} (m : grid A) :
  (forall r c, pixel m r c = None) -> concat m = [].
Proof.
  induction m as [|row rest IH]; intros Hnone; [reflexivity|].
  pose proof (Hnone 0%nat 0%nat) as Hrow. unfold pixel in Hrow.
  cbn [nth_error] in Hrow. destruct row as [|x row]; [|discriminate Hrow].
  cbn [concat app]. apply IH. intros r c. exact (Hnone (S r) c).
Qed.

(** Two grids with the same pixels have the same pixels in a row: they
    differ at most by empty rows at the end. *)
Lemma concat_same_pixels {A : Type} (m1 m2 : grid A) :
  (forall r c, pixel m1 r c = pixel m2 r c) -> concat m1 = concat m2.
Proof.
  revert m2. induction m1 as [|row1 rest1 IH]; intros m2 Hsame.
  - symmetry. apply concat_no_pixel. intros r c. rewrite <- Hsame.
    unfold pixel. now destruct r.
  - destruct m2 as [|row2 rest2].
    + apply concat_no_pixel. intros r c. rewrite Hsame.
      unfold pixel. now destruct r.
    + cbn [concat]. f_equal.
      * apply nth_error_ext. intros c. exact (Hsame 0%nat c).
      * apply IH. intros r c. exact (Hsame (S r) c).
Qed.

(** The set difference of the spec is the difference the code computes, as
    far as the pixels go. *)
Lemma is_mask_difference_concat (maskNuclei maskRaw maskClean : Mask) :
  is_mask_difference maskNuclei maskRaw maskClean ->
  concat maskNuclei = concat (mask_difference maskRaw maskClean).
Proof.
  intros Hdiff. apply concat_same_pixels. intros r c.
  now rewrite pixel_mask_difference.
Qed.

Lemma nth_error_seq_all {A : Type} (l : list A) :
  map (nth_error l) (seq 0 (length l)) = map Some l.
Proof.
  induction l as [|x t IH]; [reflexivity|].
  cbn [length seq map nth_error]. f_equal.
  rewrite <- seq_shift, map_map. exact IH.
Qed.

Lemma positions_cons {A : Type} (row : list A) (rest : grid A) :
  positions (row :: rest)
  = map (fun c => (0%nat, c)) (seq 0 (length row))
    ++ map (fun p => (S (fst p), snd p)) (positions rest).
Proof.
  unfold positions. cbn [length seq flat_map nth]. f_equal.
  rewrite <- seq_shift.
  induction (seq 0 (length rest)) as [|r l IH]; [reflexivity|].
  cbn [map flat_map nth]. rewrite map_app, IH, map_map. reflexivity.
Qed.

(** The pixels at the positions of a grid are the pixels of its rows, one
    row after the other. *)
Lemma pixels_at_positions {A : Type} (m : grid A) :
  map (fun p => pixel m (fst p) (snd p)) (positions m) = map Some (concat m).
Proof.
  induction m as [|row rest IH]; [reflexivity|].
  rewrite positions_cons, map_app, !map_map. cbn [concat fst snd].
  rewrite map_app, <- IH. f_equal.
  exact (nth_error_seq_all row).
Qed.

Lemma filter_of_map {A B : Type} (g : A -> B) (f : B -> bool) (l : list A) :
  filter f (map g l) = map g (filter (fun a => f (g a)) l).
Proof.
  induction l as [|x t IH]; [reflexivity|].
  cbn [map filter]. destruct (f (g x)); cbn [map]; now rewrite IH.
Qed.

(** The count of the spec is the size of the array. *)
Lemma total_pixel_count_size (m : Mask) : total_pixel_count m = size m.
Proof.
  unfold total_pixel_count, size, len. f_equal.
  rewrite <- (length_map (fun p => pixel m (fst p) (snd p)) (positions m)).
  now rewrite pixels_at_positions, length_map.
Qed.

(** The count of the spec is [np.count_nonzero]. *)
Lemma count_true_pixels_count_nonzero (m : Mask) :
  count_true_pixels m = count_nonzero m.
Proof.
  unfold count_true_pixels, count_nonzero, len. f_equal.
  pose (on := fun o : option bool => match o with
                                     | Some true => true
                                     | _ => false
                                     end).
  transitivity (length (filter on (map (fun p => pixel m (fst p) (snd p))
                                       (positions m)))).
  - rewrite filter_of_map, length_map. reflexivity.
  - rewrite pixels_at_positions, filter_of_map, length_map. f_equal.
    apply filter_ext. now intros [|].
Qed.

Lemma count_nonzero_bounds (m : Mask) : 0 <= count_nonzero m <= size m.
Proof.
  unfold count_nonzero, size, len. split; [lia|].
  apply Nat2Z.inj_le, filter_length_le.
Qed.

Lemma size_nonneg {A : Type} (m : grid A) : 0 <= size m.
Proof. unfold size, len. lia. Qed.

(** ** Scorers *)

Section ScorerFacts.
Context `{Imaging} `{Numpy}.

Lemma score_raises_iff (tile : Tile) :
  size (NucleiScorer.mask_nuclei tile) < 2 ^ 63 ->
  NucleiScorer.score tile = Raise ZeroDivisionError
  <-> size (NucleiScorer.mask_nuclei tile) = 0.
Proof.
  intros Hsmall. unfold NucleiScorer.score. cbv zeta.
  pose proof (size_nonneg (NucleiScorer.mask_nuclei tile)) as Hs.
  split.
  - intros E.
    destruct (Z.eq_dec (size (NucleiScorer.mask_nuclei tile)) 0) as [|Hne];
      [assumption|].
    assert (Hpos : 0 < size (NucleiScorer.mask_nuclei tile) < 2 ^ 63).
    { lia. }
    destruct (@truediv_finite (count_nonzero (NucleiScorer.mask_nuclei tile))
                (size (NucleiScorer.mask_nuclei tile)) Hpos)
      as (q & Eq & _).
    rewrite Eq in E. discriminate E.
  - intros ->. reflexivity.
Qed.

(** C1: the score of a tile is the nuclei ratio times [tanh] of the tissue
    ratio. Let [maskRaw] be the Yen threshold, with [operator.gt], of the
    hematoxylin channel of the pixels of the tile, [maskClean] the white
    top-hat of that same threshold, and [maskNuclei] their set difference
    [maskRaw AND NOT maskClean]. On a tile whose nuclei mask has a pixel (and
    fewer than [2^53], where the conversion of an [int] to binary64 is
    exact) the score is returned, and it is the number of positions at
    which [maskNuclei] is on, divided in binary64 by the number of its
    positions, times numpy's [tanh] of the tissue ratio; the call leaves
    the generator alone. A mask without a pixel has no ratio: the division
    raises. *)
Theorem nuclei_score_formula (tile : Tile) (maskNuclei : Mask) :
  is_mask_difference maskNuclei
    (YenThreshold operator_gt (HematoxylinChannel (image tile)))
    (WhiteTopHat (YenThreshold operator_gt (HematoxylinChannel (image tile)))) ->
  total_pixel_count maskNuclei < 2 ^ 53 ->
  (0 < total_pixel_count maskNuclei ->
   exists nucleiRatio : float,
     nucleiRatio
     = (of_uint63 (Uint63.of_Z (count_true_pixels maskNuclei))
        / of_uint63 (Uint63.of_Z (total_pixel_count maskNuclei)))%float
     /\ finite_nonneg nucleiRatio = true
     /\ NucleiScorer.score tile
        = Ok (nucleiRatio * tanh (tissue_ratio tile))%float
     /\ (forall st,
           NucleiScorer.__call__ tile st
           = (Ok (nucleiRatio * tanh (tissue_ratio tile))%float, st)))
  /\ (total_pixel_count maskNuclei = 0 ->
      NucleiScorer.score tile = Raise ZeroDivisionError).
Proof.
  rewrite total_pixel_count_size, count_true_pixels_count_nonzero.
  intros Hdiff Hsmall.
  pose proof (is_mask_difference_concat Hdiff) as Hconcat.
  assert (Hcount : count_nonzero (NucleiScorer.mask_nuclei tile)
                   = count_nonzero maskNuclei).
  { unfold count_nonzero, NucleiScorer.mask_nuclei, apply_filters,
      NucleiScorer.filters_raw_nuclei, NucleiScorer.filters_nuclei_cleaner.
    now rewrite Hconcat. }
  assert (Hsize : size (NucleiScorer.mask_nuclei tile) = size maskNuclei).
  { unfold size, NucleiScorer.mask_nuclei, apply_filters,
      NucleiScorer.filters_raw_nuclei, NucleiScorer.filters_nuclei_cleaner.
    now rewrite Hconcat. }
  assert (Hscore : NucleiScorer.score tile
                   = (nucleiRatio <- truediv (count_nonzero maskNuclei)
                                             (size maskNuclei) ;;
                      Ok (nucleiRatio * tanh (tissue_ratio tile))%float)).
  { unfold NucleiScorer.score. cbv zeta. now rewrite Hcount, Hsize. }
  split.
  - intros Hpos.
    assert (Hs63 : 0 < size maskNuclei < 2 ^ 63)
      by (assert (2 ^ 53 < 2 ^ 63) by reflexivity; lia).
    destruct (@truediv_finite (count_nonzero maskNuclei) (size maskNuclei)
                Hs63) as (q & Eq & Hq).
    exists q.
    assert (Eform : q = (of_uint63 (Uint63.of_Z (count_nonzero maskNuclei))
                         / of_uint63 (Uint63.of_Z (size maskNuclei)))%float).
    { unfold truediv in Eq.
      destruct (size maskNuclei =? 0) eqn:E0; [discriminate Eq|].
      now injection Eq as <-. }
    assert (Es : NucleiScorer.score tile
                 = Ok (q * tanh (tissue_ratio tile))%float)
      by (rewrite Hscore, Eq; reflexivity).
    split; [exact Eform|]. split; [exact Hq|].
    split; [exact Es|].
    intros st. unfold NucleiScorer.__call__. now rewrite Es.
  - intros Hzero. rewrite Hscore, Hzero. reflexivity.
Qed.

(** C6, as the code has it: the division by the size of the nuclei mask is
    not guarded. A tile whose nuclei mask has no pixel makes the score raise
    [ZeroDivisionError], and that is the only way for the score to raise it;
    when the mask has a pixel, the nuclei ratio is a finite float that is
    not negative and the score is its product with [tanh] of the tissue
    ratio. *)
Theorem nuclei_score_division (tile : Tile) :
  size (NucleiScorer.mask_nuclei tile) < 2 ^ 53 ->
  (size (NucleiScorer.mask_nuclei tile) = 0
   <-> NucleiScorer.score tile = Raise ZeroDivisionError)
  /\ (size (NucleiScorer.mask_nuclei tile) <> 0 ->
      exists nuclei_ratio : float,
        truediv (count_nonzero (NucleiScorer.mask_nuclei tile))
                (size (NucleiScorer.mask_nuclei tile)) = Ok nuclei_ratio
        /\ finite_nonneg nuclei_ratio = true
        /\ NucleiScorer.score tile
           = Ok (nuclei_ratio * tanh (tissue_ratio tile))%float).
Proof.
  intros Hsmall.
  assert (Hs63 : size (NucleiScorer.mask_nuclei tile) < 2 ^ 63)
    by (assert (2 ^ 53 < 2 ^ 63) by reflexivity; lia).
  split.
  - symmetry. now apply score_raises_iff.
  - intros Hne.
    pose proof (size_nonneg (NucleiScorer.mask_nuclei tile)) as Hs.
    assert (Hpos : 0 < size (NucleiScorer.mask_nuclei tile) < 2 ^ 63) by lia.
    destruct (@truediv_finite (count_nonzero (NucleiScorer.mask_nuclei tile))
                (size (NucleiScorer.mask_nuclei tile)) Hpos)
      as (q & Eq & Hq).
    exists q. split; [exact Eq|]. split; [exact Hq|].
    unfold NucleiScorer.score. cbv zeta. now rewrite Eq.
Qed.

(** C8: on a tile of tissue ratio 0 the score is exactly 0, however many of
    the pixels of the nuclei mask are on, numpy's [tanh] being 0 at 0. A
    tile has pixels (fewer than [2^53]): its tissue ratio is a fraction of
    them, and its nuclei mask has them all. *)
Theorem nuclei_score_no_tissue (tile : Tile) :
  tanh 0%float = 0%float ->
  tissue_ratio tile = 0%float ->
  0 < size (NucleiScorer.mask_nuclei tile) < 2 ^ 53 ->
  NucleiScorer.score tile = Ok 0%float
  /\ (forall st, NucleiScorer.__call__ tile st = (Ok 0%float, st)).
Proof.
  intros Htanh Hratio Hsize.
  assert (Hs63 : 0 < size (NucleiScorer.mask_nuclei tile) < 2 ^ 63)
    by (assert (2 ^ 53 < 2 ^ 63) by reflexivity; lia).
  assert (E : NucleiScorer.score tile = Ok 0%float).
  { destruct (@truediv_finite (count_nonzero (NucleiScorer.mask_nuclei tile))
                (size (NucleiScorer.mask_nuclei tile)) Hs63)
      as (q & Eq & Hq).
    unfold NucleiScorer.score. cbv zeta. rewrite Eq. simpl.
    now rewrite Hratio, Htanh, (mul_zero_r q Hq). }
  split; [exact E|].
  intros st. unfold NucleiScorer.__call__. now rewrite E.
Qed.

Lemma call_each_nuclei (tiles : list Tile) (st : RandomState) :
  call_each NucleiScorer.__call__ tiles st
  = (map NucleiScorer.score tiles, st).
Proof.
  induction tiles as [|tile rest IH]; [reflexivity|].
  cbn [call_each map].
  change (NucleiScorer.__call__ tile st) with (NucleiScorer.score tile, st).
  cbv iota beta. now rewrite IH.
Qed.

Lemma call_each_random (tiles : list Tile) (st : RandomState) :
  call_each RandomScorer.__call__ tiles st
  = (map Ok (fst (draws (length tiles) st)),
     snd (draws (length tiles) st)).
Proof.
  revert st. induction tiles as [|tile rest IH]; intros st;
    [reflexivity|].
  cbn [call_each length draws].
  unfold RandomScorer.__call__ at 1.
  destruct (random_random st) as [x st1]. rewrite IH.
  now destruct (draws (length rest) st1).
Qed.

End ScorerFacts.

Lemma nuclei_score_division_witness :
  size (@NucleiScorer.mask_nuclei Demo.imaging Demo.tile_nuclei) < 2 ^ 53
  /\ (size (@NucleiScorer.mask_nuclei Demo.imaging Demo.tile_nuclei) = 0
      <-> @NucleiScorer.score Demo.imaging Demo.numpy Demo.tile_nuclei
          = Raise ZeroDivisionError).
Proof.
  assert (H : size (@NucleiScorer.mask_nuclei Demo.imaging Demo.tile_nuclei)
              < 2 ^ 53) by reflexivity.
  split; [exact H|].
  exact (proj1 (@nuclei_score_division Demo.imaging Demo.numpy
                  Demo.tile_nuclei H)).
Defined.

(** The empty tile has a nuclei mask without a pixel, and its score raises
    [ZeroDivisionError]: a zero-area tile does raise the division fault. *)
Lemma nuclei_score_empty_tile_raises :
  size (@NucleiScorer.mask_nuclei Demo.imaging Demo.tile_empty) = 0
  /\ @NucleiScorer.score Demo.imaging Demo.numpy Demo.tile_empty
     = Raise ZeroDivisionError
  /\ ~ (forall (I : Imaging) (N : Numpy) (tile : Tile),
          size (NucleiScorer.mask_nuclei tile) = 0 ->
          exists x : float, NucleiScorer.score tile = Ok x).
Proof.
  split; [reflexivity|]. split; [reflexivity|].
  intros Hclaim.
  destruct (Hclaim Demo.imaging Demo.numpy Demo.tile_empty eq_refl) as [x Hx].
  discriminate Hx.
Qed.

Lemma nuclei_score_no_tissue_witness :
  (@tanh Demo.numpy 0%float = 0%float
   /\ tissue_ratio Demo.tile_nuclei_no_tissue = 0%float
   /\ 0 < size (@NucleiScorer.mask_nuclei Demo.imaging
                  Demo.tile_nuclei_no_tissue) < 2 ^ 53)
  /\ count_nonzero (@NucleiScorer.mask_nuclei Demo.imaging
                      Demo.tile_nuclei_no_tissue) = 2
  /\ @NucleiScorer.score Demo.imaging Demo.numpy Demo.tile_nuclei_no_tissue
     = Ok 0%float.
Proof.
  assert (Htanh : @tanh Demo.numpy 0%float = 0%float) by reflexivity.
  assert (Hratio : tissue_ratio Demo.tile_nuclei_no_tissue = 0%float)
    by reflexivity.
  assert (Hsize : 0 < size (@NucleiScorer.mask_nuclei Demo.imaging
                              Demo.tile_nuclei_no_tissue) < 2 ^ 53)
    by (split; reflexivity).
  split; [auto|]. split; [reflexivity|].
  exact (proj1 (@nuclei_score_no_tissue Demo.imaging Demo.numpy
                  Demo.tile_nuclei_no_tissue Htanh Hratio Hsize)).
Defined.

Lemma nuclei_score_formula_witness :
  (is_mask_difference Demo.nuclei_mask
     (@YenThreshold Demo.imaging operator_gt
        (@HematoxylinChannel Demo.imaging (image Demo.tile_nuclei)))
     (@WhiteTopHat Demo.imaging
        (@YenThreshold Demo.imaging operator_gt
           (@HematoxylinChannel Demo.imaging (image Demo.tile_nuclei))))
   /\ 0 < total_pixel_count Demo.nuclei_mask < 2 ^ 53)
  /\ exists nucleiRatio : float,
       nucleiRatio = (of_uint63 2 / of_uint63 6)%float
       /\ @NucleiScorer.score Demo.imaging Demo.numpy Demo.tile_nuclei
          = Ok (nucleiRatio * @tanh Demo.numpy 0.5)%float.
Proof.
  assert (Hdiff : is_mask_difference Demo.nuclei_mask
            (@YenThreshold Demo.imaging operator_gt
               (@HematoxylinChannel Demo.imaging (image Demo.tile_nuclei)))
            (@WhiteTopHat Demo.imaging
               (@YenThreshold Demo.imaging operator_gt
                  (@HematoxylinChannel Demo.imaging
                     (image Demo.tile_nuclei))))).
  { intros r c.
    exact (pixel_mask_difference
             (@YenThreshold Demo.imaging operator_gt
                (@HematoxylinChannel Demo.imaging (image Demo.tile_nuclei)))
             (@WhiteTopHat Demo.imaging
                (@YenThreshold Demo.imaging operator_gt
                   (@HematoxylinChannel Demo.imaging
                      (image Demo.tile_nuclei)))) r c). }
  assert (Hsize : 0 < total_pixel_count Demo.nuclei_mask < 2 ^ 53)
    by (split; reflexivity).
  split; [auto|].
  destruct (proj1 (@nuclei_score_formula Demo.imaging Demo.numpy
                     Demo.tile_nuclei Demo.nuclei_mask Hdiff (proj2 Hsize))
                  (proj1 Hsize))
    as (nucleiRatio & Eform & _ & Escore & _).
  exists nucleiRatio. split; [exact Eform|exact Escore].
Defined.

(** The scenario of the two pieces of tissue: two regions, of 3 pixels and
    of 1 pixel; the larger one is selected and its box is drawn. *)
Example two_pieces_scenario :
  map area (@regions_from_binary_mask Demo.imaging
              (@tissue_mask_filters Demo.imaging Demo.thumb_two_pieces))
  = [3; 1]
  /\ @BiggestTissueBoxMask._mask_wrapped Demo.imaging Demo.slide_two_pieces
     = Ok Demo.box_mask.
Proof. split; reflexivity. Qed.

Example regions_ties_keep_input_order :
  BiggestTissueBoxMask._regions [Demo.r1; Demo.r2; Demo.r3; Demo.r4] 2
  = Ok [Demo.r2; Demo.r1].
Proof. reflexivity. Qed.

Example random_scorer_two_calls :
  fst (@call_each Demo.numpy (@RandomScorer.__call__ Demo.numpy)
         [Demo.tile_empty; Demo.tile_empty] 42)
  = [Ok 0x1.22ef15db0fdcbp-1%float; Ok 0x1.cdbfc52e32678p-3%float].
Proof. reflexivity. Qed.

(** * Further properties *)

(** ** More on the selection of regions *)

Section SortedMore.
Context {A : Type} (key : A -> Z).

(** Sorting a list that is in descending order already changes nothing. *)
Lemma sorted_reverse_of_sorted (l : list A) :
  StronglySorted (descending key) l -> sorted_reverse key l = l.
Proof.
  induction 1 as [|x t Ht IH Hx]; simpl; [reflexivity|].
  rewrite IH. destruct t as [|y t']; [reflexivity|]. simpl.
  inversion Hx as [|? ? Hy _]; subst. unfold descending in Hy.
  destruct (key x <? key y) eqn:E; [apply Z.ltb_lt in E; lia|reflexivity].
Qed.

(** The head of the sorted list is the first element of largest key. *)
Lemma sorted_reverse_head (l : list A) :
  l <> [] ->
  exists pre r post t,
    l = pre ++ r :: post
    /\ Forall (fun x => key x < key r) pre
    /\ Forall (fun x => key x <= key r) post
    /\ sorted_reverse key l = r :: t.
Proof.
  induction l as [|x l' IH]; intros Hne; [contradiction|].
  destruct l' as [|y l''] eqn:El'.
  - exists [], x, [], []. repeat split; constructor.
  - rewrite <- El' in *.
    destruct (IH ltac:(rewrite El'; discriminate))
      as (pre & r & post & t & El & Hpre & Hpost & Es).
    change (sorted_reverse key (x :: l'))
      with (insert_reverse key x (sorted_reverse key l')).
    rewrite Es. simpl.
    destruct (key x <? key r) eqn:E.
    + apply Z.ltb_lt in E.
      exists (x :: pre), r, post, (insert_reverse key x t).
      rewrite El. repeat split; auto.
    + apply Z.ltb_ge in E.
      exists [], x, l', (r :: t).
      split; [reflexivity|]. split; [constructor|]. split; [|reflexivity].
      rewrite El. apply Forall_app. split.
      * eapply Forall_impl; [|exact Hpre]. simpl. intros; lia.
      * constructor; [lia|].
        eapply Forall_impl; [|exact Hpost]. simpl. intros; lia.
Qed.

Lemma NoDup_map_In_eq (l : list A) (x y : A) :
  NoDup (map key l) -> In x l -> In y l -> key x = key y -> x = y.
Proof.
  induction l as [|z t IH]; simpl; intros Hnd Hx Hy E; [contradiction|].
  inversion Hnd as [|? ? Hz Ht]; subst.
  destruct Hx as [->|Hx], Hy as [->|Hy]; auto.
  - exfalso. apply Hz. rewrite E. now apply in_map.
  - exfalso. apply Hz. rewrite <- E. now apply in_map.
Qed.

(** Two lists in descending order that hold the same elements, with no key
    twice, are the same list. *)
Lemma sorted_unique (l1 l2 : list A) :
  StronglySorted (descending key) l1 ->
  StronglySorted (descending key) l2 ->
  Permutation l1 l2 -> NoDup (map key l1) -> l1 = l2.
Proof.
  intros S1. revert l2.
  induction S1 as [|a t1 St1 IH Ha]; intros l2 S2 Hp Hnd.
  - apply Permutation_nil in Hp. now subst.
  - destruct l2 as [|b t2];
      [apply Permutation_sym, Permutation_nil in Hp; discriminate|].
    inversion S2 as [|? ? St2 Hb]; subst.
    assert (Eab : a = b).
    { assert (Hina : In a (b :: t2))
        by (eapply Permutation_in; [exact Hp|now left]).
      assert (Hinb : In b (a :: t1))
        by (eapply Permutation_in; [apply Permutation_sym; exact Hp|now left]).
      destruct Hina as [->|Hina]; [reflexivity|].
      destruct Hinb as [->|Hinb]; [reflexivity|].
      rewrite Forall_forall in Ha, Hb.
      pose proof (Ha b Hinb) as H1. pose proof (Hb a Hina) as H2.
      unfold descending in H1, H2.
      apply (NoDup_map_In_eq (a :: t1)); simpl; auto. lia. }
    subst b. f_equal. apply IH; [exact St2| |].
    + eapply Permutation_cons_inv; exact Hp.
    + now inversion Hnd.
Qed.

Lemma sorted_reverse_permutation_invariant (l l' : list A) :
  Permutation l l' -> NoDup (map key l) ->
  sorted_reverse key l = sorted_reverse key l'.
Proof.
  intros Hp Hnd. apply sorted_unique.
  - apply sorted_reverse_sorted.
  - apply sorted_reverse_sorted.
  - eapply perm_trans; [apply Permutation_sym, sorted_reverse_perm|].
    eapply perm_trans; [exact Hp|apply sorted_reverse_perm].
  - eapply Permutation_NoDup; [|exact Hnd].
    apply Permutation_map, sorted_reverse_perm.
Qed.
End SortedMore.

(** X1: selecting from a selection. For [1 <= k <= n <= len(regions)], the
    [k] regions selected out of the [n] regions selected from a list are the
    [k] regions selected from the list itself, which are the first [k] of
    the [n]; selecting [n] out of the [n] selected changes nothing. *)
Theorem regions_of_selected_regions (regions : list Region) (n k : Z) :
  1 <= k <= n -> n <= len regions ->
  exists top : list Region,
    BiggestTissueBoxMask._regions regions n = Ok top
    /\ BiggestTissueBoxMask._regions top k
       = BiggestTissueBoxMask._regions regions k
    /\ BiggestTissueBoxMask._regions regions k = Ok (slice_to k top)
    /\ BiggestTissueBoxMask._regions top n = Ok top.
Proof.
  intros Hk Hn.
  set (s := sorted_reverse area regions).
  assert (Hlen : len (slice_to n s) = n).
  { unfold len, slice_to, s in *.
    rewrite length_firstn, sorted_reverse_length. lia. }
  assert (Hsorted : StronglySorted (descending area) (slice_to n s)).
  { unfold slice_to.
    apply (@sorted_app_left _ area _ (skipn (Z.to_nat n) s)).
    rewrite firstn_skipn. apply sorted_reverse_sorted. }
  assert (Hprefix : forall j, 1 <= j <= n ->
            BiggestTissueBoxMask._regions (slice_to n s) j
            = Ok (slice_to j s)).
  { intros j Hj. rewrite regions_ok by lia.
    rewrite (sorted_reverse_of_sorted Hsorted). unfold slice_to.
    rewrite firstn_firstn. do 2 f_equal. lia. }
  exists (slice_to n s).
  split; [apply regions_ok; lia|].
  split; [rewrite Hprefix by lia; symmetry; apply regions_ok; lia|].
  split.
  - rewrite regions_ok by lia. fold s. unfold slice_to.
    rewrite firstn_firstn. do 2 f_equal. lia.
  - apply Hprefix. lia.
Qed.

Lemma regions_of_selected_regions_witness :
  (1 <= 2 <= 3 /\ 3 <= len [Demo.r1; Demo.r2; Demo.r3; Demo.r4])
  /\ exists top : list Region,
       BiggestTissueBoxMask._regions [Demo.r1; Demo.r2; Demo.r3; Demo.r4] 3
       = Ok top
       /\ BiggestTissueBoxMask._regions top 2
          = BiggestTissueBoxMask._regions [Demo.r1; Demo.r2; Demo.r3; Demo.r4] 2
       /\ BiggestTissueBoxMask._regions [Demo.r1; Demo.r2; Demo.r3; Demo.r4] 2
          = Ok (slice_to 2 top)
       /\ BiggestTissueBoxMask._regions top 3 = Ok top.
Proof.
  assert (Hk : 1 <= 2 <= 3) by lia.
  assert (Hn : 3 <= len [Demo.r1; Demo.r2; Demo.r3; Demo.r4])
    by (vm_compute; discriminate).
  split; [split; assumption|].
  exact (@regions_of_selected_regions
           [Demo.r1; Demo.r2; Demo.r3; Demo.r4] 3 2 Hk Hn).
Defined.

(** X2: with the default [n = 1], [_regions] on a list that is not empty
    returns one region: the first region of the list among those of largest
    area (every region before it is strictly smaller, no region after it is
    larger). *)
Theorem regions_default_is_first_largest (regions : list Region) :
  regions <> [] ->
  exists pre r post,
    regions = pre ++ r :: post
    /\ Forall (fun x => area x < area r) pre
    /\ Forall (fun x => area x <= area r) post
    /\ BiggestTissueBoxMask._regions regions 1 = Ok [r].
Proof.
  intros Hne.
  destruct (sorted_reverse_head area Hne)
    as (pre & r & post & t & El & Hpre & Hpost & Es).
  exists pre, r, post. repeat split; try assumption.
  rewrite regions_ok.
  - unfold slice_to. now rewrite Es.
  - unfold len. destruct regions; [contradiction|simpl; lia].
Qed.

Lemma regions_default_is_first_largest_witness :
  [Demo.r1; Demo.r3; Demo.r4] <> []
  /\ exists pre r post,
       [Demo.r1; Demo.r3; Demo.r4] = pre ++ r :: post
       /\ Forall (fun x => area x < area r) pre
       /\ Forall (fun x => area x <= area r) post
       /\ BiggestTissueBoxMask._regions [Demo.r1; Demo.r3; Demo.r4] 1
          = Ok [r].
Proof.
  assert (Hne : [Demo.r1; Demo.r3; Demo.r4] <> []) by discriminate.
  split; [exact Hne|].
  exact (@regions_default_is_first_largest [Demo.r1; Demo.r3; Demo.r4] Hne).
Defined.

(** X3: when no two regions have the same area, the result of [_regions]
    does not depend on the order of the input list: two lists that hold the
    same regions give the same result, and the same failure. *)
Theorem regions_order_independent_without_ties
    (regions regions' : list Region) (n : Z) :
  Permutation regions regions' ->
  NoDup (map area regions) ->
  BiggestTissueBoxMask._regions regions n
  = BiggestTissueBoxMask._regions regions' n.
Proof.
  intros Hp Hnd. unfold BiggestTissueBoxMask._regions, len.
  rewrite (Permutation_length Hp).
  now rewrite (sorted_reverse_permutation_invariant area Hp Hnd).
Qed.

Lemma regions_order_independent_without_ties_witness :
  (Permutation [Demo.r1; Demo.r2; Demo.r4] [Demo.r4; Demo.r1; Demo.r2]
   /\ NoDup (map area [Demo.r1; Demo.r2; Demo.r4]))
  /\ BiggestTissueBoxMask._regions [Demo.r1; Demo.r2; Demo.r4] 2
     = BiggestTissueBoxMask._regions [Demo.r4; Demo.r1; Demo.r2] 2.
Proof.
  assert (Hp : Permutation [Demo.r1; Demo.r2; Demo.r4]
                           [Demo.r4; Demo.r1; Demo.r2]).
  { apply Permutation_sym.
    change (Permutation ([Demo.r4] ++ [Demo.r1; Demo.r2])
                        ([Demo.r1; Demo.r2] ++ [Demo.r4])).
    apply Permutation_app_comm. }
  assert (Hnd : NoDup (map area [Demo.r1; Demo.r2; Demo.r4])).
  { simpl. repeat constructor; simpl; intuition discriminate. }
  split; [split; assumption|].
  exact (@regions_order_independent_without_ties
           [Demo.r1; Demo.r2; Demo.r4] [Demo.r4; Demo.r1; Demo.r2] 2 Hp Hnd).
Defined.

(** With a tie, the order of the input list decides. *)
Example regions_order_matters_with_ties :
  BiggestTissueBoxMask._regions [Demo.r1; Demo.r3] 1 = Ok [Demo.r1]
  /\ BiggestTissueBoxMask._regions [Demo.r3; Demo.r1] 1 = Ok [Demo.r3].
Proof. split; reflexivity. Qed.

(** ** More on the cache *)

Section LruCacheMore.
Context {K V : Type} (K_eqb : K -> K -> bool).
Hypothesis K_eqb_refl : forall k, K_eqb k k = true.
Hypothesis K_eqb_eq : forall k k0, K_eqb k k0 = true -> k = k0.

Lemma K_eqb_neq (k k0 : K) : k <> k0 -> K_eqb k k0 = false.
Proof.
  intros Hne. destruct (K_eqb k k0) eqn:E; [|reflexivity].
  now apply K_eqb_eq in E.
Qed.

Lemma length_of_removelast {A : Type} (l : list A) :
  length (removelast l) = Nat.pred (length l).
Proof.
  induction l as [|x t IH]; [reflexivity|].
  destruct t; [reflexivity|]. simpl in *. now rewrite IH.
Qed.

Lemma unlink_length (k : K) (l : list (K * V)) (v : V) :
  functools.cache_get K_eqb k l = Some v ->
  S (length (functools.unlink K_eqb k l)) = length l.
Proof.
  induction l as [|[k1 v1] t IH]; simpl; [discriminate|].
  destruct (K_eqb k k1); [reflexivity|].
  intros Hget. simpl. now rewrite IH.
Qed.

(** A call does not let the cache grow beyond [maxsize]. *)
Lemma lru_cache_length (maxsize : nat) (k : K) (f : result V)
    (c : functools.cache K V) :
  (0 < maxsize)%nat ->
  (length (functools.entries c) <= maxsize)%nat ->
  (length (functools.entries (snd (functools.lru_cache K_eqb maxsize k f c)))
   <= maxsize)%nat.
Proof.
  intros Hpos Hlen. unfold functools.lru_cache.
  destruct (functools.cache_get K_eqb k (functools.entries c)) as [v|] eqn:Hget.
  - simpl. rewrite (unlink_length _ _ Hget). exact Hlen.
  - destruct f as [v|e]; simpl; [|exact Hlen].
    destruct (length (functools.entries c) <? maxsize)%nat eqn:E.
    + apply Nat.ltb_lt in E. lia.
    + apply Nat.ltb_ge in E. rewrite length_of_removelast. lia.
Qed.

Lemma cache_get_None_not_In (k : K) (l : list (K * V)) :
  functools.cache_get K_eqb k l = None -> ~ In k (map fst l).
Proof.
  induction l as [|[k1 v1] t IH]; simpl; [tauto|].
  destruct (K_eqb k k1) eqn:E; [discriminate|].
  intros Hget [->|Hin]; [rewrite K_eqb_refl in E; discriminate|].
  now apply IH.
Qed.

Lemma unlink_keys_incl (k : K) (l : list (K * V)) :
  incl (map fst (functools.unlink K_eqb k l)) (map fst l).
Proof.
  induction l as [|[k1 v1] t IH]; simpl; [apply incl_refl|].
  destruct (K_eqb k k1).
  - apply incl_tl, incl_refl.
  - simpl. apply incl_cons; [now left|]. now apply incl_tl.
Qed.

Lemma unlink_NoDup (k : K) (l : list (K * V)) :
  NoDup (map fst l) ->
  NoDup (map fst (functools.unlink K_eqb k l))
  /\ (In k (map fst l) -> ~ In k (map fst (functools.unlink K_eqb k l))).
Proof.
  induction l as [|[k1 v1] t IH]; simpl; intros Hnd; [split; [constructor|tauto]|].
  inversion Hnd as [|? ? Hk1 Ht]; subst.
  destruct (K_eqb k k1) eqn:E.
  - apply K_eqb_eq in E. subst k1. split; [exact Ht|]. intros _. exact Hk1.
  - destruct (IH Ht) as [Hnd' Hout]. split.
    + simpl. constructor; [|exact Hnd'].
      intros Hin. apply Hk1. now apply (unlink_keys_incl k t).
    + simpl. intros [->|Hin] [Heq|Hin'].
      * rewrite K_eqb_refl in E. discriminate.
      * rewrite K_eqb_refl in E. discriminate.
      * subst k1. rewrite K_eqb_refl in E. discriminate.
      * now apply Hout.
Qed.

Lemma removelast_In {A : Type} (l : list A) (x : A) :
  In x (removelast l) -> In x l.
Proof.
  induction l as [|y t IH]; simpl; [tauto|].
  destruct t; [simpl; tauto|]. intros [->|Hin]; [now left|right; now apply IH].
Qed.

Lemma removelast_NoDup {A : Type} (l : list A) :
  NoDup l -> NoDup (removelast l).
Proof.
  induction 1 as [|x t Hx Ht IH]; simpl; [constructor|].
  destruct t as [|y t']; [constructor|].
  constructor; [|exact IH].
  intros Hin. apply Hx. now apply removelast_In.
Qed.

Lemma map_removelast {A B : Type} (g : A -> B) (l : list A) :
  map g (removelast l) = removelast (map g l).
Proof.
  induction l as [|x t IH]; [reflexivity|].
  destruct t; [reflexivity|]. simpl in *. now rewrite IH.
Qed.

(** A call keeps the keys of the cache distinct. *)
Lemma lru_cache_NoDup (maxsize : nat) (k : K) (f : result V)
    (c : functools.cache K V) :
  NoDup (map fst (functools.entries c)) ->
  NoDup (map fst (functools.entries
                    (snd (functools.lru_cache K_eqb maxsize k f c)))).
Proof.
  intros Hnd. unfold functools.lru_cache.
  destruct (functools.cache_get K_eqb k (functools.entries c)) as [v|] eqn:Hget.
  - simpl. destruct (unlink_NoDup k _ Hnd) as [Hnd' Hout].
    constructor; [|exact Hnd'].
    apply Hout.
    destruct (cache_get_In _ _ _ Hget) as (k0 & Hin & Hk).
    apply K_eqb_eq in Hk. subst k0.
    change k with (fst (k, v)). now apply in_map.
  - destruct f as [v|e]; simpl; [|exact Hnd].
    pose proof (cache_get_None_not_In _ _ Hget) as Hout.
    destruct (length (functools.entries c) <? maxsize)%nat.
    + now constructor.
    + rewrite map_removelast. constructor.
      * intros Hin. apply Hout. now apply removelast_In.
      * now apply removelast_NoDup.
Qed.

(** An entry that lies before position [maxsize - 1] is still there after a
    call at another key, at most one position further. *)
Lemma lru_cache_keeps_recent (maxsize : nat) (k k' : K) (f : result V)
    (c : functools.cache K V) (v : V) (pre post : list (K * V)) :
  k' <> k ->
  functools.entries c = pre ++ (k, v) :: post ->
  ~ In k (map fst pre) ->
  (S (length pre) < maxsize)%nat ->
  exists pre' post',
    functools.entries (snd (functools.lru_cache K_eqb maxsize k' f c))
    = pre' ++ (k, v) :: post'
    /\ ~ In k (map fst pre')
    /\ (length pre' <= S (length pre))%nat.
Proof.
  intros Hne Hc Hpre Hlen. unfold functools.lru_cache.
  destruct (functools.cache_get K_eqb k' (functools.entries c)) as [v'|] eqn:Hget.
  - simpl. rewrite Hc.
    assert (Hun : exists pre2 post2,
              functools.unlink K_eqb k' (pre ++ (k, v) :: post)
              = pre2 ++ (k, v) :: post2
              /\ incl (map fst pre2) (map fst pre)
              /\ (length pre2 <= length pre)%nat).
    { clear Hc Hget Hlen Hpre. induction pre as [|[k1 v1] t IH]; simpl.
      - rewrite (K_eqb_neq Hne). exists [], (functools.unlink K_eqb k' post).
        split; [reflexivity|]. split; [apply incl_refl|simpl; lia].
      - destruct (K_eqb k' k1).
        + exists t, post. split; [reflexivity|].
          split; [apply incl_tl, incl_refl|simpl; lia].
        + destruct IH as (pre2 & post2 & E & Hincl & Hl).
          exists ((k1, v1) :: pre2), post2. rewrite E.
          split; [reflexivity|]. split; [|simpl; lia].
          simpl. apply incl_cons; [now left|now apply incl_tl]. }
    destruct Hun as (pre2 & post2 & E & Hincl & Hl).
    exists ((k', v') :: pre2), post2. rewrite E.
    split; [reflexivity|]. split; [|simpl; lia].
    simpl. intros [Heq|Hin]; [now apply Hne|]. now apply Hpre, Hincl.
  - destruct f as [v'|e]; simpl.
    + destruct (length (functools.entries c) <? maxsize)%nat eqn:E.
      * exists ((k', v') :: pre), post. rewrite Hc.
        split; [reflexivity|]. split; [|simpl; lia].
        simpl. intros [Heq|Hin]; [now apply Hne|now apply Hpre].
      * apply Nat.ltb_ge in E. rewrite Hc in E |- *.
        rewrite length_app in E. simpl in E.
        destruct post as [|p post']; [simpl in E; lia|].
        exists ((k', v') :: pre), (removelast (p :: post')).
        rewrite removelast_app by discriminate.
        split; [reflexivity|]. split; [|simpl; lia].
        simpl. intros [Heq|Hin]; [now apply Hne|now apply Hpre].
    + exists pre, post. split; [exact Hc|]. split; [exact Hpre|lia].
Qed.

Lemma cache_get_middle (k : K) (v : V) (pre post : list (K * V)) :
  ~ In k (map fst pre) ->
  functools.cache_get K_eqb k (pre ++ (k, v) :: post) = Some v.
Proof.
  induction pre as [|[k1 v1] t IH]; simpl; intros Hout.
  - now rewrite K_eqb_refl.
  - rewrite K_eqb_neq by (intros ->; apply Hout; now left).
    apply IH. intros Hin. apply Hout. now right.
Qed.
End LruCacheMore.

Lemma lru_cache_front {K V : Type} (K_eqb : K -> K -> bool) (maxsize : nat)
    (k : K) (f : result V) (c c1 : functools.cache K V) (v : V) :
  functools.lru_cache K_eqb maxsize k f c = (Ok v, c1) ->
  exists rest, functools.entries c1 = (k, v) :: rest.
Proof.
  unfold functools.lru_cache.
  destruct (functools.cache_get K_eqb k (functools.entries c)) as [v0|].
  - intros [= <- <-]. eexists. reflexivity.
  - destruct f as [v0|e]; [|discriminate].
    intros [= <- <-]. eexists. reflexivity.
Qed.

Lemma In_firstn {A : Type} (n : nat) (l : list A) (x : A) :
  In x (firstn n l) -> In x l.
Proof.
  intros Hin. rewrite <- (firstn_skipn n l). apply in_or_app. now left.
Qed.

Lemma firstn_app_firstn {A : Type} (n : nat) (news l : list A) :
  firstn n (news ++ firstn n l) = firstn n (news ++ l).
Proof.
  rewrite !firstn_app, firstn_firstn. do 2 f_equal. lia.
Qed.

Section CacheRuns.
Variable f : Slide -> result Mask.

Lemma call_in_turn_length (calls : list (nat * Slide)) (c : mask_cache) :
  (length (functools.entries c) <= 100)%nat ->
  (length (functools.entries (call_in_turn (lru_cache_100 f) calls c))
   <= 100)%nat.
Proof.
  revert c. induction calls as [|[self slide] rest IH]; intros c Hc; simpl;
    [exact Hc|].
  apply IH. unfold lru_cache_100. apply lru_cache_length; [lia|exact Hc].
Qed.

Lemma call_in_turn_NoDup (calls : list (nat * Slide)) (c : mask_cache) :
  NoDup (map fst (functools.entries c)) ->
  NoDup (map fst (functools.entries
                    (call_in_turn (lru_cache_100 f) calls c))).
Proof.
  revert c. induction calls as [|[self slide] rest IH]; intros c Hc; simpl;
    [exact Hc|].
  apply IH. unfold lru_cache_100.
  apply lru_cache_NoDup; [apply key_eqb_refl|apply key_eqb_eq|exact Hc].
Qed.

(** An entry survives as many calls at other keys as there are positions
    behind it. *)
Lemma call_in_turn_keeps_recent (k : nat * nat) (m : Mask)
    (others : list (nat * Slide)) (c : mask_cache)
    (pre post : list (nat * nat * Mask)) :
  Forall (fun call => (fst call, slide_id (snd call)) <> k) others ->
  functools.entries c = pre ++ (k, m) :: post ->
  ~ In k (map fst pre) ->
  (length pre + length others <= 99)%nat ->
  functools.cache_get key_eqb k
    (functools.entries (call_in_turn (lru_cache_100 f) others c)) = Some m.
Proof.
  revert c pre post.
  induction others as [|[self slide] rest IH]; intros c pre post Hk Hc Hpre Hlen;
    cbn [call_in_turn].
  - rewrite Hc.
    now apply cache_get_middle; [apply key_eqb_refl|apply key_eqb_eq|].
  - inversion Hk as [|? ? Hne Hrest]; subst. cbn [fst snd length] in Hne, Hlen.
    assert (Hroom : (S (length pre) < 100)%nat) by lia.
    destruct (@lru_cache_keeps_recent _ _ key_eqb key_eqb_eq
                100 k (self, slide_id slide) (f slide) c m pre post
                Hne Hc Hpre Hroom)
      as (pre' & post' & Hc' & Hpre' & Hlen').
    apply (IH _ pre' post'); try assumption. lia.
Qed.

(** Calls that compute a mask at a key that is not in the cache push the
    entries back, and the cache keeps the first 100. *)
Lemma call_in_turn_pushes (others : list (nat * Slide)) (c : mask_cache) :
  (length (functools.entries c) <= 100)%nat ->
  NoDup (map (fun call => (fst call, slide_id (snd call))) others) ->
  Forall (fun call => ~ In (fst call, slide_id (snd call))
                           (map fst (functools.entries c))) others ->
  Forall (fun call => exists m, f (snd call) = Ok m) others ->
  exists news : list (nat * nat * Mask),
    map fst news
    = rev (map (fun call => (fst call, slide_id (snd call))) others)
    /\ functools.entries (call_in_turn (lru_cache_100 f) others c)
       = firstn 100 (news ++ functools.entries c).
Proof.
  revert c.
  induction others as [|[self slide] rest IH]; intros c Hlen Hnd Hout Hok;
    cbn [call_in_turn].
  - exists []. split; [reflexivity|]. cbn [app]. symmetry.
    now apply firstn_all2.
  - inversion Hnd as [|? ? Hk Hnd']; subst.
    inversion Hout as [|? ? Hk0 Hout']; subst.
    inversion Hok as [|? ? [m Hm] Hok']; subst. cbn [fst snd] in *.
    assert (Hget : functools.cache_get key_eqb (self, slide_id slide)
                     (functools.entries c) = None).
    { destruct (functools.cache_get key_eqb (self, slide_id slide)
                  (functools.entries c)) as [v|] eqn:E; [|reflexivity].
      destruct (cache_get_In _ _ _ E) as (k0 & Hin & Hk1).
      apply key_eqb_eq in Hk1. subst k0. exfalso. apply Hk0.
      change (self, slide_id slide) with (fst (self, slide_id slide, v)).
      now apply in_map. }
    set (x := (self, slide_id slide, m)).
    assert (Ec' : functools.entries (snd (lru_cache_100 f self slide c))
                  = firstn 100 (x :: functools.entries c)).
    { unfold lru_cache_100, functools.lru_cache. rewrite Hget, Hm.
      cbn [snd functools.entries]. fold x.
      destruct (length (functools.entries c) <? 100)%nat eqn:E.
      - apply Nat.ltb_lt in E. symmetry. apply firstn_all2.
        cbn [length]. lia.
      - apply Nat.ltb_ge in E.
        change (firstn 100 (x :: functools.entries c))
          with (x :: firstn 99 (functools.entries c)).
        f_equal. rewrite removelast_firstn_len. f_equal. lia. }
    destruct (IH (snd (lru_cache_100 f self slide c))) as (news & Hn & E).
    + rewrite Ec', length_firstn. lia.
    + exact Hnd'.
    + rewrite Forall_forall in Hout' |- *. intros call Hcall Hin.
      rewrite Ec' in Hin.
      assert (Hin' : In (fst call, slide_id (snd call))
                        (map fst (x :: functools.entries c))).
      { rewrite in_map_iff in Hin |- *. destruct Hin as (y & Ey & Hy).
        exists y. split; [exact Ey|]. eapply In_firstn; exact Hy. }
      cbn [map In fst] in Hin'. destruct Hin' as [Heq|Hin'].
      * apply Hk. unfold x in Heq. cbn [fst] in Heq. rewrite Heq.
        rewrite in_map_iff. exists call. auto.
      * now apply (Hout' call Hcall).
    + exact Hok'.
    + exists (news ++ [x]).
      split; [rewrite map_app, Hn; reflexivity|].
      rewrite E, Ec', firstn_app_firstn, <- app_assoc. reflexivity.
Qed.
End CacheRuns.

Lemma cache_get_not_In (k : nat * nat) (l : list (nat * nat * Mask)) :
  ~ In k (map fst l) -> functools.cache_get key_eqb k l = None.
Proof.
  induction l as [|[k1 v1] t IH]; simpl; intros Hout; [reflexivity|].
  destruct (key_eqb k k1) eqn:E.
  - apply key_eqb_eq in E. exfalso. apply Hout. now left.
  - apply IH. intros Hin. apply Hout. now right.
Qed.

(** ** More on the mask strategies *)

Section MaskMore.
Context `{Imaging}.


(** X5: a failure is not cached. Calling the box strategy [n] times in a
    row on a slide whose tissue mask has no region runs the computation [n]
    times (the misses grow by [n]), stores nothing, and the next call raises
    [ValueError] again. *)
Theorem biggest_box_failure_is_not_cached
    (self : nat) (slide : Slide) (c : mask_cache) (n : nat) :
  regions_from_binary_mask (tissue_mask_filters (thumbnail slide)) = [] ->
  functools.agrees key_eqb c (self, slide_id slide)
                   (BiggestTissueBoxMask._mask_wrapped slide) ->
  functools.entries
    (call_in_turn BiggestTissueBoxMask.__call__ (repeat (self, slide) n) c)
  = functools.entries c
  /\ functools.misses
       (call_in_turn BiggestTissueBoxMask.__call__ (repeat (self, slide) n) c)
     = (n + functools.misses c)%nat
  /\ functools.hits
       (call_in_turn BiggestTissueBoxMask.__call__ (repeat (self, slide) n) c)
     = functools.hits c
  /\ fst (BiggestTissueBoxMask.__call__ self slide
            (call_in_turn BiggestTissueBoxMask.__call__
                          (repeat (self, slide) n) c))
     = Raise ValueError.
Proof.
  intros Hblank Hagree.
  pose proof (biggest_box_no_regions slide Hblank) as Hraise.
  assert (Hget : functools.cache_get key_eqb (self, slide_id slide)
                   (functools.entries c) = None).
  { destruct (functools.cache_get key_eqb (self, slide_id slide)
                (functools.entries c)) as [v|] eqn:E; [|reflexivity].
    specialize (Hagree v E). rewrite Hraise in Hagree. discriminate. }
  clear Hagree.
  assert (Hstep : forall c0 : mask_cache,
            functools.cache_get key_eqb (self, slide_id slide)
              (functools.entries c0) = None ->
            BiggestTissueBoxMask.__call__ self slide c0
            = (Raise ValueError,
               functools.mkCache (functools.entries c0) (functools.hits c0)
                                 (S (functools.misses c0)))).
  { intros c0 Hget0.
    unfold BiggestTissueBoxMask.__call__, BiggestTissueBoxMask._mask,
      lru_cache_100.
    exact (lru_cache_raise key_eqb 100 _ c0 Hget0 Hraise). }
  revert c Hget. induction n as [|n IH]; intros c Hget; cbn [repeat call_in_turn].
  - rewrite (Hstep c Hget). auto.
  - rewrite (Hstep c Hget). cbn [snd].
    destruct (IH (functools.mkCache (functools.entries c) (functools.hits c)
                                    (S (functools.misses c))) Hget)
      as (He & Hm & Hh & Hr).
    rewrite He, Hm, Hh, Hr. cbn [functools.entries functools.misses functools.hits].
    repeat split; lia.
Qed.

(** X6: the cache of either strategy never holds more than 100 masks:
    whatever the calls, a cache of at most 100 entries is a cache of at most
    100 entries afterwards. *)
Theorem mask_cache_holds_at_most_100
    (calls : list (nat * Slide)) (c : mask_cache) :
  (length (functools.entries c) <= 100)%nat ->
  (length (functools.entries
             (call_in_turn BiggestTissueBoxMask.__call__ calls c)) <= 100)%nat
  /\ (length (functools.entries
                (call_in_turn TissueMask.__call__ calls c)) <= 100)%nat.
Proof.
  intros Hc. split.
  - exact (call_in_turn_length BiggestTissueBoxMask._mask_wrapped calls c Hc).
  - exact (call_in_turn_length TissueMask._mask_wrapped calls c Hc).
Qed.

(** X7: the cache of either strategy never holds two entries for one pair
    of strategy object and slide: whatever the calls, distinct keys stay
    distinct. *)
Theorem mask_cache_keys_stay_distinct
    (calls : list (nat * Slide)) (c : mask_cache) :
  NoDup (map fst (functools.entries c)) ->
  NoDup (map fst (functools.entries
                    (call_in_turn BiggestTissueBoxMask.__call__ calls c)))
  /\ NoDup (map fst (functools.entries
                       (call_in_turn TissueMask.__call__ calls c))).
Proof.
  intros Hc. split.
  - exact (call_in_turn_NoDup BiggestTissueBoxMask._mask_wrapped calls c Hc).
  - exact (call_in_turn_NoDup TissueMask._mask_wrapped calls c Hc).
Qed.

(** X8: a mask that a call of the box strategy returned stays cached over
    the next 99 calls on other pairs of strategy object and slide, whatever
    they are and whether they succeed: the call after them is a hit that
    returns the same mask and computes nothing. *)
Theorem biggest_box_mask_survives_99_calls
    (self : nat) (slide : Slide) (c c1 : mask_cache) (m : Mask)
    (others : list (nat * Slide)) :
  BiggestTissueBoxMask.__call__ self slide c = (Ok m, c1) ->
  Forall (fun call => (fst call, slide_id (snd call))
                      <> (self, slide_id slide)) others ->
  (length others <= 99)%nat ->
  exists c2,
    BiggestTissueBoxMask.__call__ self slide
      (call_in_turn BiggestTissueBoxMask.__call__ others c1) = (Ok m, c2)
    /\ functools.misses c2
       = functools.misses
           (call_in_turn BiggestTissueBoxMask.__call__ others c1)
    /\ functools.hits c2
       = S (functools.hits
              (call_in_turn BiggestTissueBoxMask.__call__ others c1)).
Proof.
  intros Hcall Hothers Hlen.
  unfold BiggestTissueBoxMask.__call__, BiggestTissueBoxMask._mask,
    lru_cache_100 in Hcall.
  destruct (lru_cache_front _ _ _ _ _ Hcall) as (rest & Ec1).
  pose proof (@call_in_turn_keeps_recent BiggestTissueBoxMask._mask_wrapped
                (self, slide_id slide) m others c1 [] rest Hothers Ec1
                (fun x => x)) as Hget.
  specialize (Hget ltac:(simpl; lia)).
  destruct (lru_cache_hit key_eqb key_eqb_refl 100 _
              (BiggestTissueBoxMask._mask_wrapped slide) _ Hget)
    as (c2 & E & Hm & Hh & _).
  exists c2. repeat split; assumption.
Qed.

(** X9: the cache forgets the least recently used mask. After a call of the
    box strategy returned a mask, 100 calls that each compute a mask, on 100
    distinct pairs of strategy object and slide none of which was cached,
    leave the first mask out of the cache: the next call on its slide is a
    miss and computes again. *)
Theorem biggest_box_mask_evicted_by_100_new_slides
    (self : nat) (slide : Slide) (c c1 : mask_cache) (m : Mask)
    (others : list (nat * Slide)) :
  BiggestTissueBoxMask.__call__ self slide c = (Ok m, c1) ->
  (length (functools.entries c) <= 100)%nat ->
  NoDup (map (fun call => (fst call, slide_id (snd call))) others) ->
  Forall (fun call => ~ In (fst call, slide_id (snd call))
                           (map fst (functools.entries c1))) others ->
  Forall (fun call => exists m',
            BiggestTissueBoxMask._mask_wrapped (snd call) = Ok m') others ->
  length others = 100%nat ->
  functools.cache_get key_eqb (self, slide_id slide)
    (functools.entries
       (call_in_turn BiggestTissueBoxMask.__call__ others c1)) = None
  /\ functools.misses
       (snd (BiggestTissueBoxMask.__call__ self slide
               (call_in_turn BiggestTissueBoxMask.__call__ others c1)))
     = S (functools.misses
            (call_in_turn BiggestTissueBoxMask.__call__ others c1)).
Proof.
  intros Hcall Hc Hnd Hout Hok Hlen.
  assert (Hc1 : (length (functools.entries c1) <= 100)%nat).
  { replace c1 with (snd (BiggestTissueBoxMask.__call__ self slide c))
      by now rewrite Hcall.
    unfold BiggestTissueBoxMask.__call__, BiggestTissueBoxMask._mask,
      lru_cache_100.
    apply lru_cache_length; [lia|exact Hc]. }
  unfold BiggestTissueBoxMask.__call__, BiggestTissueBoxMask._mask,
    lru_cache_100 in Hcall.
  destruct (lru_cache_front _ _ _ _ _ Hcall) as (rest & Ec1).
  destruct (@call_in_turn_pushes BiggestTissueBoxMask._mask_wrapped others c1
              Hc1 Hnd Hout Hok) as (news & Hkeys & E).
  assert (Hnews : length news = 100%nat).
  { rewrite <- (length_map fst news), Hkeys, length_rev, length_map.
    exact Hlen. }
  assert (Hget : functools.cache_get key_eqb (self, slide_id slide)
            (functools.entries
               (call_in_turn BiggestTissueBoxMask.__call__ others c1)) = None).
  { change (call_in_turn BiggestTissueBoxMask.__call__ others c1)
      with (call_in_turn (lru_cache_100 BiggestTissueBoxMask._mask_wrapped)
                         others c1).
    rewrite E, firstn_app, Hnews, Nat.sub_diag, firstn_O, app_nil_r.
    rewrite firstn_all2 by lia.
    apply cache_get_not_In. rewrite Hkeys, <- in_rev, in_map_iff.
    intros (call & Ekey & Hin).
    rewrite Forall_forall in Hout. apply (Hout call Hin).
    rewrite Ekey, Ec1. now left. }
  split; [exact Hget|].
  unfold BiggestTissueBoxMask.__call__ at 1, BiggestTissueBoxMask._mask at 1,
    lru_cache_100 at 1, functools.lru_cache.
  rewrite Hget.
  destruct (BiggestTissueBoxMask._mask_wrapped slide); reflexivity.
Qed.

End MaskMore.


Lemma biggest_box_failure_is_not_cached_witness :
  @regions_from_binary_mask Demo.imaging
    (@tissue_mask_filters Demo.imaging (thumbnail Demo.slide_blank)) = []
  /\ functools.misses
       (call_in_turn (@BiggestTissueBoxMask.__call__ Demo.imaging)
          (repeat (7%nat, Demo.slide_blank) 3) (functools.cache_clear _ _))
     = 3%nat.
Proof.
  assert (Hblank : @regions_from_binary_mask Demo.imaging
            (@tissue_mask_filters Demo.imaging (thumbnail Demo.slide_blank))
            = []) by reflexivity.
  split; [exact Hblank|].
  exact (proj1 (proj2 (@biggest_box_failure_is_not_cached Demo.imaging 7
           Demo.slide_blank (functools.cache_clear _ _) 3 Hblank
           (@cache_clear_agrees _ _ _ _ _)))).
Defined.

Lemma mask_cache_holds_at_most_100_witness :
  (length (functools.entries (functools.cache_clear (nat * nat) Mask))
   <= 100)%nat
  /\ (length (functools.entries
                (call_in_turn (@BiggestTissueBoxMask.__call__ Demo.imaging)
                   Demo.hundred_calls (functools.cache_clear _ _)))
      <= 100)%nat.
Proof.
  assert (Hc : (length (functools.entries
                          (functools.cache_clear (nat * nat) Mask))
                <= 100)%nat) by (simpl; lia).
  split; [exact Hc|].
  exact (proj1 (@mask_cache_holds_at_most_100 Demo.imaging
                  Demo.hundred_calls (functools.cache_clear _ _) Hc)).
Defined.

Lemma mask_cache_keys_stay_distinct_witness :
  NoDup (map fst (functools.entries (functools.cache_clear (nat * nat) Mask)))
  /\ NoDup (map fst (functools.entries
                       (call_in_turn (@TissueMask.__call__ Demo.imaging)
                          [(7%nat, Demo.slide_blank);
                           (7%nat, Demo.slide_two_pieces);
                           (7%nat, Demo.slide_blank)]
                          (functools.cache_clear _ _)))).
Proof.
  assert (Hc : NoDup (map fst (functools.entries
                                 (functools.cache_clear (nat * nat) Mask))))
    by constructor.
  split; [exact Hc|].
  exact (proj2 (@mask_cache_keys_stay_distinct Demo.imaging
                  [(7%nat, Demo.slide_blank); (7%nat, Demo.slide_two_pieces);
                   (7%nat, Demo.slide_blank)]
                  (functools.cache_clear _ _) Hc)).
Defined.

Lemma biggest_box_mask_survives_99_calls_witness :
  (@BiggestTissueBoxMask.__call__ Demo.imaging 7 Demo.slide_two_pieces
     (functools.cache_clear _ _)
   = (Ok Demo.box_mask,
      snd (@BiggestTissueBoxMask.__call__ Demo.imaging 7
             Demo.slide_two_pieces (functools.cache_clear _ _)))
   /\ Forall (fun call : nat * Slide =>
                (fst call, slide_id (snd call))
                <> (7%nat, slide_id Demo.slide_two_pieces))
             [(7%nat, Demo.slide_blank); (8%nat, Demo.slide_two_pieces)]
   /\ (length [(7%nat, Demo.slide_blank); (8%nat, Demo.slide_two_pieces)]
       <= 99)%nat)
  /\ exists c2,
       @BiggestTissueBoxMask.__call__ Demo.imaging 7 Demo.slide_two_pieces
         (call_in_turn (@BiggestTissueBoxMask.__call__ Demo.imaging)
            [(7%nat, Demo.slide_blank); (8%nat, Demo.slide_two_pieces)]
            (snd (@BiggestTissueBoxMask.__call__ Demo.imaging 7
                    Demo.slide_two_pieces (functools.cache_clear _ _))))
       = (Ok Demo.box_mask, c2)
       /\ functools.misses c2
          = functools.misses
              (call_in_turn (@BiggestTissueBoxMask.__call__ Demo.imaging)
                 [(7%nat, Demo.slide_blank); (8%nat, Demo.slide_two_pieces)]
                 (snd (@BiggestTissueBoxMask.__call__ Demo.imaging 7
                         Demo.slide_two_pieces (functools.cache_clear _ _))))
       /\ functools.hits c2
          = S (functools.hits
                 (call_in_turn (@BiggestTissueBoxMask.__call__ Demo.imaging)
                    [(7%nat, Demo.slide_blank); (8%nat, Demo.slide_two_pieces)]
                    (snd (@BiggestTissueBoxMask.__call__ Demo.imaging 7
                            Demo.slide_two_pieces
                            (functools.cache_clear _ _))))).
Proof.
  assert (Hcall : @BiggestTissueBoxMask.__call__ Demo.imaging 7
            Demo.slide_two_pieces (functools.cache_clear _ _)
          = (Ok Demo.box_mask,
             snd (@BiggestTissueBoxMask.__call__ Demo.imaging 7
                    Demo.slide_two_pieces (functools.cache_clear _ _))))
    by reflexivity.
  assert (Hothers : Forall (fun call : nat * Slide =>
                      (fst call, slide_id (snd call))
                      <> (7%nat, slide_id Demo.slide_two_pieces))
            [(7%nat, Demo.slide_blank); (8%nat, Demo.slide_two_pieces)])
    by (repeat constructor; discriminate).
  assert (Hlen : (length [(7%nat, Demo.slide_blank);
                          (8%nat, Demo.slide_two_pieces)] <= 99)%nat)
    by (simpl; lia).
  split; [auto|].
  exact (@biggest_box_mask_survives_99_calls Demo.imaging 7
           Demo.slide_two_pieces (functools.cache_clear _ _) _ Demo.box_mask
           _ Hcall Hothers Hlen).
Defined.

Lemma hundred_calls_keys :
  map (fun call : nat * Slide => (fst call, slide_id (snd call)))
      Demo.hundred_calls
  = map (fun i => (7%nat, (10 + i)%nat)) (seq 0 100).
Proof. unfold Demo.hundred_calls. now rewrite map_map. Qed.

Lemma biggest_box_mask_evicted_by_100_new_slides_witness :
  (@BiggestTissueBoxMask.__call__ Demo.imaging 7 Demo.slide_two_pieces
     (functools.cache_clear _ _)
   = (Ok Demo.box_mask,
      snd (@BiggestTissueBoxMask.__call__ Demo.imaging 7
             Demo.slide_two_pieces (functools.cache_clear _ _)))
   /\ length Demo.hundred_calls = 100%nat)
  /\ functools.cache_get key_eqb (7%nat, slide_id Demo.slide_two_pieces)
       (functools.entries
          (call_in_turn (@BiggestTissueBoxMask.__call__ Demo.imaging)
             Demo.hundred_calls
             (snd (@BiggestTissueBoxMask.__call__ Demo.imaging 7
                     Demo.slide_two_pieces (functools.cache_clear _ _)))))
     = None.
Proof.
  assert (Hcall : @BiggestTissueBoxMask.__call__ Demo.imaging 7
            Demo.slide_two_pieces (functools.cache_clear _ _)
          = (Ok Demo.box_mask,
             snd (@BiggestTissueBoxMask.__call__ Demo.imaging 7
                    Demo.slide_two_pieces (functools.cache_clear _ _))))
    by reflexivity.
  assert (Hc : (length (functools.entries
                          (functools.cache_clear (nat * nat) Mask))
                <= 100)%nat) by (simpl; lia).
  assert (Hnd : NoDup (map (fun call : nat * Slide =>
                              (fst call, slide_id (snd call)))
                           Demo.hundred_calls)).
  { rewrite hundred_calls_keys.
    apply Finite.Injective_map_NoDup; [|apply seq_NoDup].
    intros i j E. injection E. lia. }
  assert (Hout : Forall (fun call : nat * Slide =>
                   ~ In (fst call, slide_id (snd call))
                        (map fst (functools.entries
                           (snd (@BiggestTissueBoxMask.__call__ Demo.imaging 7
                                   Demo.slide_two_pieces
                                   (functools.cache_clear _ _))))))
                 Demo.hundred_calls).
  { apply Forall_forall. intros call Hin.
    unfold Demo.hundred_calls in Hin. apply in_map_iff in Hin.
    destruct Hin as (i & <- & _).
    intros [E|[]]. cbn [fst snd slide_id] in E. injection E. lia. }
  assert (Hok : Forall (fun call : nat * Slide => exists m',
                   @BiggestTissueBoxMask._mask_wrapped Demo.imaging (snd call)
                   = Ok m') Demo.hundred_calls).
  { apply Forall_forall. intros call Hin.
    unfold Demo.hundred_calls in Hin. apply in_map_iff in Hin.
    destruct Hin as (i & <- & _). exists Demo.box_mask. reflexivity. }
  assert (Hlen : length Demo.hundred_calls = 100%nat) by reflexivity.
  split; [auto|].
  exact (proj1 (@biggest_box_mask_evicted_by_100_new_slides Demo.imaging 7
                  Demo.slide_two_pieces (functools.cache_clear _ _) _
                  Demo.box_mask Demo.hundred_calls
                  Hcall Hc Hnd Hout Hok Hlen)).
Defined.

(** ** More on IEEE binary64: rounding does not cross a float *)

Lemma shr_1_exact (k : Z) :
  0 <= k ->
  shr_1 (Build_shr_record (2 * k) false false) = Build_shr_record k false false.
Proof. destruct k as [|p|p]; intros Hk; [reflexivity|reflexivity|lia]. Qed.

(** Shifting out zeros leaves no remainder behind. *)
Lemma iter_shr_1_exact (p : positive) (k : Z) :
  0 <= k ->
  iter_pos shr_1 p (Build_shr_record (k * 2 ^ Zpos p) false false)
  = Build_shr_record k false false.
Proof.
  revert k. induction p as [p IH|p IH|]; intros k Hk; cbn [iter_pos].
  - pose proof (Z.pow_pos_nonneg 2 (Zpos p) ltac:(lia) ltac:(lia)) as Hpos.
    replace (k * 2 ^ Zpos p~1) with (2 * (k * 2 ^ Zpos p * 2 ^ Zpos p)).
    + rewrite shr_1_exact by nia. rewrite IH by nia. now apply IH.
    + replace (Zpos p~1) with (Zpos p + Zpos p + 1) by lia.
      rewrite 2!Z.pow_add_r by lia. change (2 ^ 1) with 2. ring.
  - pose proof (Z.pow_pos_nonneg 2 (Zpos p) ltac:(lia) ltac:(lia)) as Hpos.
    replace (k * 2 ^ Zpos p~0) with (k * 2 ^ Zpos p * 2 ^ Zpos p).
    + rewrite IH by nia. now apply IH.
    + replace (Zpos p~0) with (Zpos p + Zpos p) by lia.
      rewrite Z.pow_add_r by lia. ring.
  - change (2 ^ 1) with 2. rewrite Z.mul_comm. now apply shr_1_exact.
Qed.

Lemma loc_of_shr_record_of_loc (m : Z) (l : location) :
  loc_of_shr_record (shr_record_of_loc m l) = l.
Proof. destruct l as [|[]]; reflexivity. Qed.

Lemma shr_fexp_cases (m e : Z) (l : location) :
  (fexp prec emax (Zdigits2 m + e) - e <= 0
   /\ shr_fexp prec emax m e l = (shr_record_of_loc m l, e))
  \/ (exists p, fexp prec emax (Zdigits2 m + e) - e = Zpos p
                /\ shr_fexp prec emax m e l
                   = (iter_pos shr_1 p (shr_record_of_loc m l), e + Zpos p)).
Proof.
  unfold shr_fexp, shr.
  destruct (fexp prec emax (Zdigits2 m + e) - e) as [|p|p].
  - left. split; [lia|reflexivity].
  - right. exists p. split; reflexivity.
  - left. split; [lia|reflexivity].
Qed.

(** One shift and the rounding after it stay at or below a bound
    [N * 2 ^ g] that the value did not exceed: a value below the bound, or
    a value that is the bound with nothing lost before. *)
Lemma shr_fexp_round_le (mx ex : Z) (lx : location) (N g : Z) :
  0 <= N < 2 ^ 53 -> -1074 <= g -> ex <= g -> 0 <= mx ->
  mx < N * 2 ^ (g - ex) \/ (mx = N * 2 ^ (g - ex) /\ lx = loc_Exact) ->
  ex <= snd (shr_fexp prec emax mx ex lx) <= g
  /\ 0 <= round_nearest_even
            (shr_m (fst (shr_fexp prec emax mx ex lx)))
            (loc_of_shr_record (fst (shr_fexp prec emax mx ex lx)))
       <= N * 2 ^ (g - snd (shr_fexp prec emax mx ex lx)).
Proof.
  intros HN Hg Hex Hmx Hbound.
  pose proof (Z.pow_pos_nonneg 2 (g - ex) ltac:(lia) ltac:(lia)) as Hpos.
  assert (Hd : Zdigits2 mx + ex <= 53 + g).
  { assert (Hlt : mx < 2 ^ (53 + g - ex)).
    { replace (53 + g - ex) with (53 + (g - ex)) by lia.
      rewrite Z.pow_add_r by lia. nia. }
    pose proof (@Zdigits2_le mx (53 + g - ex) ltac:(lia) ltac:(lia)). lia. }
  destruct (shr_fexp_cases mx ex lx) as [(Hn & E)|(p & Hn & E)];
    rewrite E; cbn [fst snd]; rewrite fexp_eq in Hn.
  - rewrite shr_record_of_loc_m, loc_of_shr_record_of_loc.
    split; [lia|].
    pose proof (round_nearest_even_bounds mx lx) as Hr.
    destruct Hbound as [Hlt|(Heq & ->)]; [lia|].
    simpl round_nearest_even. lia.
  - assert (Hp : ex + Zpos p <= g) by lia.
    split; [lia|].
    assert (Esplit : N * 2 ^ (g - ex)
                     = N * 2 ^ (g - (ex + Zpos p)) * 2 ^ Zpos p).
    { replace (g - ex) with (g - (ex + Zpos p) + Zpos p) by lia.
      rewrite Z.pow_add_r by lia. ring. }
    pose proof (Z.pow_pos_nonneg 2 (Zpos p) ltac:(lia) ltac:(lia)) as Hpp.
    pose proof (Z.pow_pos_nonneg 2 (g - (ex + Zpos p)) ltac:(lia) ltac:(lia))
      as Hpg.
    destruct Hbound as [Hlt|(Heq & ->)].
    + pose proof (round_nearest_even_bounds
                    (shr_m (iter_pos shr_1 p (shr_record_of_loc mx lx)))
                    (loc_of_shr_record
                       (iter_pos shr_1 p (shr_record_of_loc mx lx)))) as Hr.
      rewrite iter_shr_1_div in Hr |- *
        by (rewrite shr_record_of_loc_m; exact Hmx).
      rewrite shr_record_of_loc_m in Hr |- *.
      assert (0 <= mx / 2 ^ Zpos p) by (apply Z.div_pos; lia).
      assert (mx / 2 ^ Zpos p < N * 2 ^ (g - (ex + Zpos p))).
      { apply Z.div_lt_upper_bound; [lia|]. rewrite Z.mul_comm. lia. }
      lia.
    + rewrite Heq, Esplit. cbn [shr_record_of_loc].
      rewrite iter_shr_1_exact by nia.
      cbn [shr_m loc_of_shr_record round_nearest_even]. nia.
Qed.

(** Rounding does not cross a float: a value at most [N * 2 ^ g], with
    [N] of at most 53 bits, rounds to zero or to a finite float of the sign
    asked for, of exponent at most [g] and of value at most [N * 2 ^ g]. *)
Lemma binary_round_aux_le (sx : bool) (mx ex : Z) (lx : location) (N g : Z) :
  0 <= N < 2 ^ 53 -> -1074 <= g <= 971 -> ex <= g -> 0 <= mx ->
  mx < N * 2 ^ (g - ex) \/ (mx = N * 2 ^ (g - ex) /\ lx = loc_Exact) ->
  binary_round_aux prec emax sx mx ex lx = S754_zero sx
  \/ exists m e,
       binary_round_aux prec emax sx mx ex lx = S754_finite sx m e
       /\ ex <= e <= g /\ Zpos m <= N * 2 ^ (g - e).
Proof.
  intros HN Hg Hex Hmx Hbound. unfold binary_round_aux.
  pose proof (@shr_fexp_round_le mx ex lx N g HN ltac:(lia) Hex Hmx Hbound)
    as (He' & Hm1).
  destruct (shr_fexp prec emax mx ex lx) as [mrs' e']. cbn [fst snd] in *.
  set (m1 := round_nearest_even (shr_m mrs') (loc_of_shr_record mrs')) in *.
  pose proof (Z.pow_pos_nonneg 2 (g - e') ltac:(lia) ltac:(lia)) as Hpos.
  assert (Hd : Zdigits2 m1 + e' <= 53 + g).
  { assert (Hlt : m1 < 2 ^ (53 + g - e')).
    { replace (53 + g - e') with (53 + (g - e')) by lia.
      rewrite Z.pow_add_r by lia. nia. }
    pose proof (@Zdigits2_le m1 (53 + g - e') ltac:(lia) ltac:(lia)). lia. }
  destruct (@shr_fexp_spec m1 e' loc_Exact ltac:(lia))
    as [(Hn & Em & Ee)|(Hn & Em & Ee)]; rewrite ?fexp_eq in Hn, Em, Ee.
  - destruct (shr_fexp prec emax m1 e' loc_Exact) as [mrs'' e''].
    cbn [fst snd] in *. subst e''. rewrite Em.
    destruct m1 as [|m|m] eqn:E1; [now left| |lia].
    right. exists m, e'.
    replace (e' <=? emax - prec) with true
      by (symmetry; apply Z.leb_le; change (emax - prec) with 971; lia).
    split; [reflexivity|]. split; lia.
  - destruct (shr_fexp prec emax m1 e' loc_Exact) as [mrs'' e''].
    cbn [fst snd] in *.
    set (n := Z.max (Zdigits2 m1 + e' - 53) (-1074) - e') in *.
    assert (He'' : e' <= e'' <= g) by lia.
    pose proof (Z.pow_pos_nonneg 2 n ltac:(lia) ltac:(lia)) as Hpn.
    pose proof (Z.pow_pos_nonneg 2 (g - e'') ltac:(lia) ltac:(lia)) as Hpg.
    assert (Hle : m1 / 2 ^ n <= N * 2 ^ (g - e'')).
    { apply Z.div_le_upper_bound; [lia|].
      replace (g - e') with (n + (g - e'')) in Hm1 by lia.
      rewrite Z.pow_add_r in Hm1 by lia. nia. }
    assert (0 <= m1 / 2 ^ n) by (apply Z.div_pos; lia).
    rewrite Em.
    destruct (m1 / 2 ^ n) as [|m|m] eqn:E1; [now left| |lia].
    right. exists m, e''.
    replace (e'' <=? emax - prec) with true
      by (symmetry; apply Z.leb_le; change (emax - prec) with 971; lia).
    split; [reflexivity|]. split; lia.
Qed.

(** A mantissa that is in place already is left alone. *)
Lemma binary_round_aux_canonical (sx : bool) (m : positive) (ex : Z) :
  fexp prec emax (Zdigits2 (Zpos m) + ex) = ex -> ex <= 971 ->
  binary_round_aux prec emax sx (Zpos m) ex loc_Exact = S754_finite sx m ex.
Proof.
  intros Hcan Hex. unfold binary_round_aux.
  assert (E : shr_fexp prec emax (Zpos m) ex loc_Exact
              = (shr_record_of_loc (Zpos m) loc_Exact, ex)).
  { destruct (shr_fexp_cases (Zpos m) ex loc_Exact) as [(_ & E)|(p & Hn & _)];
      [exact E|lia]. }
  rewrite E. cbn [shr_record_of_loc shr_m loc_of_shr_record round_nearest_even].
  rewrite E. cbn [shr_record_of_loc shr_m].
  replace (ex <=? emax - prec) with true
    by (symmetry; apply Z.leb_le; change (emax - prec) with 971; lia).
  reflexivity.
Qed.

(** The conversion of a positive machine integer below [2 ^ 53] is exact,
    and normal. *)
Lemma of_uint63_exact (n : int) :
  0 < to_Z n < 2 ^ 53 ->
  exists m e,
    Prim2SF (of_uint63 n) = S754_finite false m e
    /\ -52 <= e <= 0
    /\ Zpos m = to_Z n * 2 ^ (- e)
    /\ 2 ^ 52 <= Zpos m < 2 ^ 53.
Proof.
  intros Hn. rewrite of_uint63_spec.
  destruct (to_Z n) as [|p|p]; [lia| |lia].
  simpl binary_normalize. unfold binary_round.
  pose proof (@Zdigits2_le (Zpos p) 53 ltac:(lia) ltac:(lia)) as Hd.
  pose proof (@Zdigits2_lower (Zpos p) ltac:(lia)) as Hlow.
  pose proof (@Zdigits2_upper (Zpos p) ltac:(lia)) as Hup.
  pose proof (@Zdigits2_ge (Zpos p) 0 ltac:(lia) ltac:(lia)) as Hd1.
  simpl Zdigits2 in *. rewrite fexp_eq. unfold shl_align.
  set (dp := Zpos (digits2_pos p)) in *.
  assert (Emax : Z.max (dp + 0 - 53) (-1074) = dp - 53) by lia.
  rewrite Emax.
  destruct (dp - 53 - 0) as [|d|d] eqn:Ed; [|lia|].
  - assert (Edp : dp = 53) by lia. rewrite Edp in Hlow.
    exists p, 0. split.
    + apply binary_round_aux_canonical; [|lia].
      simpl Zdigits2. fold dp. rewrite fexp_eq. lia.
    + split; [lia|]. split; [simpl; lia|]. simpl in Hlow. lia.
  - assert (Hmz : 2 ^ 52 <= Zpos (Pos.iter xO p d) < 2 ^ 53).
    { rewrite iter_xO_pow2.
      pose proof (Z.pow_pos_nonneg 2 (Zpos d) ltac:(lia) ltac:(lia)) as Hpd.
      split.
      - assert (2 ^ (dp - 1) * 2 ^ Zpos d <= Zpos p * 2 ^ Zpos d)
          by (apply Z.mul_le_mono_nonneg_r; lia).
        rewrite <- Z.pow_add_r in H by lia.
        now replace (dp - 1 + Zpos d) with 52 in H by lia.
      - assert (Zpos p * 2 ^ Zpos d < 2 ^ dp * 2 ^ Zpos d)
          by (apply Z.mul_lt_mono_pos_r; lia).
        rewrite <- Z.pow_add_r in H by lia.
        now replace (dp + Zpos d) with 53 in H by lia. }
    exists (Pos.iter xO p d), (dp - 53). split.
    + apply binary_round_aux_canonical; [|lia].
      pose proof (@Zdigits2_le (Zpos (Pos.iter xO p d)) 53 ltac:(lia)
                    ltac:(lia)).
      pose proof (@Zdigits2_ge (Zpos (Pos.iter xO p d)) 52 ltac:(lia)
                    ltac:(lia)).
      rewrite fexp_eq. lia.
    + split; [lia|]. split; [|exact Hmz].
      rewrite iter_xO_pow2. do 2 f_equal. lia.
Qed.

Lemma Zdigits2_53 (m : Z) : 2 ^ 52 <= m < 2 ^ 53 -> Zdigits2 m = 53.
Proof.
  intros Hm.
  pose proof (@Zdigits2_le m 53 ltac:(lia) ltac:(lia)).
  pose proof (@Zdigits2_ge m 52 ltac:(lia) ltac:(lia)). lia.
Qed.

(** The quotient of a machine integer by one that is not smaller is a
    float between 0 and 1: zero, or positive with exponent at most -52 and
    value at most 1. *)
Lemma div_of_uint63_le_one (a b : int) :
  0 < to_Z b < 2 ^ 53 -> to_Z a <= to_Z b ->
  Prim2SF (of_uint63 a / of_uint63 b)%float = S754_zero false
  \/ exists m e,
       Prim2SF (of_uint63 a / of_uint63 b)%float = S754_finite false m e
       /\ e <= -52 /\ Zpos m <= 2 ^ (- e).
Proof.
  intros Hb Hab. rewrite FloatAxioms.div_spec. unfold SF64div.
  destruct (of_uint63_exact b Hb) as (m2 & e2 & E2 & He2 & Em2 & Hm2).
  rewrite E2.
  pose proof (Uint63.to_Z_bounded a) as Ha0.
  destruct (Z.eq_dec (to_Z a) 0) as [Ea|Hne].
  { destruct (of_uint63_SF a) as [(_ & E1)|(Hpos & _)]; [|lia].
    rewrite E1. now left. }
  destruct (@of_uint63_exact a ltac:(lia)) as (m1 & e1 & E1 & He1 & Em1 & Hm1).
  rewrite E1. unfold SFdiv, SFdiv_core_binary.
  rewrite (Zdigits2_53 Hm1), (Zdigits2_53 Hm2), fexp_eq.
  set (ca := to_Z a) in *. set (cb := to_Z b) in *.
  (* the exponents are ordered as the integers are *)
  assert (He12 : e1 <= e2).
  { destruct (Z_le_gt_dec e1 e2) as [|Hgt]; [assumption|exfalso].
    assert (Epow : 2 ^ (- e2) = 2 ^ (- e1) * 2 ^ (e1 - e2)).
    { rewrite <- Z.pow_add_r by lia. f_equal. lia. }
    pose proof (Z.pow_pos_nonneg 2 (- e1) ltac:(lia) ltac:(lia)).
    assert (2 ^ 1 <= 2 ^ (e1 - e2)) by (apply Z.pow_le_mono_r; lia).
    change (2 ^ 1) with 2 in *. nia. }
  replace (Z.min (Z.max (53 + e1 - (53 + e2) - 53) (-1074)) (e1 - e2))
    with (e1 - e2 - 53) by lia.
  replace (e1 - e2 - (e1 - e2 - 53)) with 53 by lia.
  rewrite Z.shiftl_mul_pow2 by lia.
  pose proof (Z_div_mod (Zpos m1 * 2 ^ 53) (Zpos m2) ltac:(lia)) as Hdiv.
  destruct (Z.div_eucl (Zpos m1 * 2 ^ 53) (Zpos m2)) as [q r].
  destruct Hdiv as (Eq & Hr).
  (* the bound: 1, as [2 ^ 52 * 2 ^ (-52 - e')] *)
  set (e' := e1 - e2 - 53) in *.
  assert (EB : 2 ^ 52 * 2 ^ (-52 - e') = 2 ^ 53 * 2 ^ (e2 - e1)).
  { rewrite <- !Z.pow_add_r by lia. f_equal. lia. }
  assert (Em21 : Zpos m2 * 2 ^ (e2 - e1) = cb * 2 ^ (- e1)).
  { rewrite Em2, <- Z.mul_assoc, <- Z.pow_add_r by lia. do 2 f_equal. lia. }
  pose proof (Z.pow_pos_nonneg 2 (- e1) ltac:(lia) ltac:(lia)) as Hp1.
  pose proof (Z.pow_pos_nonneg 2 (e2 - e1) ltac:(lia) ltac:(lia)) as Hp21.
  assert (Hq0 : 0 <= q) by nia.
  assert (Hcase : q < 2 ^ 52 * 2 ^ (-52 - e')
                  \/ (q = 2 ^ 52 * 2 ^ (-52 - e')
                      /\ new_location (Zpos m2) r = loc_Exact)).
  { rewrite EB. destruct (Z.eq_dec ca cb) as [Ec|Hc].
    - right.
      assert (E12 : Zpos m1 = Zpos m2 * 2 ^ (e2 - e1)) by (rewrite Em21, Em1; now rewrite Ec).
      assert (Eqr : q = 2 ^ 53 * 2 ^ (e2 - e1) /\ r = 0).
      { assert (Zpos m2 * (2 ^ 53 * 2 ^ (e2 - e1) - q) = r) by (rewrite E12 in Eq; lia).
        assert (2 ^ 53 * 2 ^ (e2 - e1) - q = 0) by nia. lia. }
      destruct Eqr as [-> ->]. split; [reflexivity|].
      unfold new_location, new_location_even, new_location_odd.
      destruct (Z.even (Zpos m2)); reflexivity.
    - left.
      assert (Hlt : Zpos m1 < Zpos m2 * 2 ^ (e2 - e1))
        by (rewrite Em21, Em1; apply Z.mul_lt_mono_pos_r; lia).
      nia. }
  destruct (@binary_round_aux_le false q e' (new_location (Zpos m2) r)
              (2 ^ 52) (-52) ltac:(split; [discriminate|reflexivity])
              ltac:(lia) ltac:(lia) Hq0 Hcase)
    as [Hz|(m & e & E & He & Hm)].
  - left. exact Hz.
  - right. exists m, e. split; [exact E|]. split; [lia|].
    replace (2 ^ (- e)) with (2 ^ 52 * 2 ^ (-52 - e)); [exact Hm|].
    rewrite <- Z.pow_add_r by lia. f_equal. lia.
Qed.

Lemma SF_one : Prim2SF 1 = S754_finite false 4503599627370496 (-52).
Proof. reflexivity. Qed.

Lemma SF_zero : Prim2SF 0 = S754_zero false.
Proof. reflexivity. Qed.

(** What the mantissa and the exponent of a float are bound to. *)
Lemma Prim2SF_finite_valid (x : float) (s : bool) (m : positive) (e : Z) :
  Prim2SF x = S754_finite s m e ->
  fexp prec emax (Zdigits2 (Zpos m) + e) = e /\ e <= 971 /\ Zpos m < 2 ^ 53.
Proof.
  intros E. pose proof (Prim2SF_valid x) as Hv. rewrite E in Hv.
  unfold SpecFloat.valid_binary, bounded, canonical_mantissa in Hv.
  apply andb_prop in Hv. destruct Hv as [Hc Hb].
  apply Z.eqb_eq in Hc. apply Z.leb_le in Hb.
  change (emax - prec) with 971 in Hb.
  split; [exact Hc|]. split; [exact Hb|].
  rewrite fexp_eq in Hc. simpl Zdigits2 in Hc.
  pose proof (@Zdigits2_upper (Zpos m) ltac:(lia)) as Hup. simpl Zdigits2 in Hup.
  assert (2 ^ Zpos (digits2_pos m) <= 2 ^ 53) by (apply Z.pow_le_mono_r; lia).
  lia.
Qed.

(** A float in [0, 1) is a zero or a positive float of exponent at most
    -53. *)
Lemma in_unit_interval_SF (x : float) :
  in_unit_interval x = true ->
  (exists s, Prim2SF x = S754_zero s)
  \/ exists m e, Prim2SF x = S754_finite false m e /\ e <= -53.
Proof.
  unfold in_unit_interval. intros Hx. apply andb_prop in Hx.
  destruct Hx as [H0 H1].
  rewrite FloatAxioms.leb_spec, SF_zero in H0.
  rewrite FloatAxioms.ltb_spec, SF_one in H1.
  destruct (Prim2SF x) as [s|s| |s m e] eqn:E.
  - left. now exists s.
  - destruct s; discriminate.
  - discriminate.
  - destruct s; [discriminate|]. right. exists m, e. split; [reflexivity|].
    destruct (Prim2SF_finite_valid x E) as (Hc & _ & _).
    unfold SFltb, SFcompare in H1.
    destruct (Z.compare_spec e (-52)) as [He|He|He]; [|lia|discriminate].
    exfalso. subst e.
    assert (Hlt : (m < 4503599627370496)%positive).
    { destruct (Pos.compare_cont Eq m 4503599627370496) eqn:Ec;
        try discriminate.
      now apply Pos.compare_lt_iff. }
    rewrite fexp_eq in Hc.
    assert (Hm : 0 <= Zpos m < 2 ^ 52).
    { split; [apply Pos2Z.is_nonneg|].
      change (2 ^ 52) with 4503599627370496.
      exact Hlt. }
    assert (H52 : 0 <= 52) by discriminate.
    pose proof (Zdigits2_le H52 Hm) as Hd.
    set (d := Zdigits2 (Zpos m)) in *. clearbody d. clear - Hc Hd. lia.
Qed.

Lemma SF_in_unit_interval (x : float) :
  (exists s, Prim2SF x = S754_zero s)
  \/ (exists m e, Prim2SF x = S754_finite false m e /\ e <= -53) ->
  in_unit_interval x = true.
Proof.
  intros Hx. unfold in_unit_interval.
  rewrite FloatAxioms.leb_spec, FloatAxioms.ltb_spec, SF_zero, SF_one.
  destruct Hx as [(s & E)|(m & e & E & He)]; rewrite E.
  - reflexivity.
  - unfold SFleb, SFltb, SFcompare.
    destruct (Z.compare_spec e (-52)) as [H|H|H];
      first [reflexivity | lia].
Qed.

(** The product of a float between 0 and 1 by a float in [0, 1) is in
    [0, 1). *)
Lemma mul_in_unit_interval (x y : float) :
  (Prim2SF x = S754_zero false
   \/ exists m e, Prim2SF x = S754_finite false m e
                  /\ e <= -52 /\ Zpos m <= 2 ^ (- e)) ->
  in_unit_interval y = true ->
  in_unit_interval (x * y) = true.
Proof.
  intros Hx Hy. apply SF_in_unit_interval.
  rewrite FloatAxioms.mul_spec. unfold SF64mul.
  destruct (in_unit_interval_SF y Hy) as [(s & Ey)|(my & ey & Ey & Hey)].
  - rewrite Ey.
    destruct Hx as [Ex|(mx & ex & Ex & _)]; rewrite Ex; left; eexists;
      reflexivity.
  - destruct (Prim2SF_finite_valid y Ey) as (_ & _ & Hmy). rewrite Ey.
    destruct Hx as [Ex|(mx & ex & Ex & Hex & Hmx)]; rewrite Ex.
    + left. eexists. reflexivity.
    + unfold SFmul. cbn [xorb].
      pose proof (Z.pow_pos_nonneg 2 (- ex) ltac:(lia) ltac:(lia)) as Hpx.
      pose proof (Z.pow_pos_nonneg 2 (-53 - ey) ltac:(lia) ltac:(lia)) as Hpy.
      assert (Ebound : (2 ^ 53 - 1) * 2 ^ (-53 - (ex + ey))
                       = (2 ^ 53 - 1) * 2 ^ (- ex) * 2 ^ (-53 - ey)).
      { replace (-53 - (ex + ey)) with (- ex + (-53 - ey)) by lia.
        rewrite Z.pow_add_r by lia. ring. }
      assert (Hle : Zpos (mx * my) <= (2 ^ 53 - 1) * 2 ^ (-53 - (ex + ey))).
      { rewrite Ebound, Pos2Z.inj_mul.
        assert (Zpos mx * Zpos my <= 2 ^ (- ex) * (2 ^ 53 - 1)) by nia.
        nia. }
      assert (Hcase : Zpos (mx * my) < (2 ^ 53 - 1) * 2 ^ (-53 - (ex + ey))
                      \/ (Zpos (mx * my) = (2 ^ 53 - 1) * 2 ^ (-53 - (ex + ey))
                          /\ loc_Exact = loc_Exact)).
      { destruct (Z.eq_dec (Zpos (mx * my))
                           ((2 ^ 53 - 1) * 2 ^ (-53 - (ex + ey))))
          as [Heq|Hneq]; [right; split; [exact Heq|reflexivity]|left; lia]. }
      destruct (@binary_round_aux_le false (Zpos (mx * my)) (ex + ey)
                  loc_Exact (2 ^ 53 - 1) (-53)
                  ltac:(split; [discriminate|reflexivity])
                  ltac:(lia) ltac:(lia) ltac:(lia) Hcase)
        as [Hz|(m & e & E & He & _)]; rewrite ?Hz, ?E.
      * left. eexists. reflexivity.
      * right. exists m, e. split; [reflexivity|lia].
Qed.

Lemma Zdigits2_mul_pow2 (m k : Z) :
  0 < m -> 0 <= k -> Zdigits2 (m * 2 ^ k) = Zdigits2 m + k.
Proof.
  intros Hm Hk.
  pose proof (Zdigits2_lower Hm) as Hlow.
  pose proof (@Zdigits2_upper m ltac:(lia)) as Hup.
  pose proof (Zdigits2_log2 Hm). pose proof (Z.log2_nonneg m).
  pose proof (Z.pow_pos_nonneg 2 k ltac:(lia) Hk) as Hpk.
  assert (Hl : 2 ^ (Zdigits2 m - 1 + k) <= m * 2 ^ k)
    by (rewrite Z.pow_add_r by lia; nia).
  assert (Hu : m * 2 ^ k < 2 ^ (Zdigits2 m + k))
    by (rewrite Z.pow_add_r by lia; nia).
  pose proof (@Zdigits2_ge (m * 2 ^ k) (Zdigits2 m - 1 + k) ltac:(lia) Hl).
  pose proof (@Zdigits2_le (m * 2 ^ k) (Zdigits2 m + k) ltac:(lia)
                ltac:(nia)).
  lia.
Qed.

(** One times a float is the float. *)
Lemma mul_one_l (y : float) : (1 * y)%float = y.
Proof.
  apply Prim2SF_inj. rewrite FloatAxioms.mul_spec, SF_one. unfold SF64mul.
  destruct (Prim2SF y) as [s|s| |s m e] eqn:Ey; try reflexivity.
  destruct (Prim2SF_finite_valid y Ey) as (Hc & He & _).
  unfold SFmul, binary_round_aux. cbn [xorb].
  replace (Zpos (4503599627370496 * m)) with (Zpos m * 2 ^ 52)
    by (change (2 ^ 52) with 4503599627370496; lia).
  assert (E1 : shr_fexp prec emax (Zpos m * 2 ^ 52) (-52 + e) loc_Exact
               = (Build_shr_record (Zpos m) false false, e)).
  { destruct (shr_fexp_cases (Zpos m * 2 ^ 52) (-52 + e) loc_Exact)
      as [(Hn & _)|(p & Hn & E)];
      rewrite Zdigits2_mul_pow2 in Hn by lia;
      replace (Zdigits2 (Zpos m) + 52 + (-52 + e))
        with (Zdigits2 (Zpos m) + e) in Hn by lia;
      rewrite Hc in Hn; [lia|].
    assert (Ep : Zpos p = 52) by lia. rewrite E.
    cbn [shr_record_of_loc]. rewrite <- Ep at 1.
    rewrite iter_shr_1_exact by lia. f_equal. lia. }
  rewrite E1. cbn [shr_m loc_of_shr_record round_nearest_even].
  assert (E2 : shr_fexp prec emax (Zpos m) e loc_Exact
               = (shr_record_of_loc (Zpos m) loc_Exact, e)).
  { destruct (shr_fexp_cases (Zpos m) e loc_Exact) as [(_ & E)|(p & Hn & _)];
      [exact E|lia]. }
  rewrite E2. cbn [shr_record_of_loc shr_m].
  replace (e <=? emax - prec) with true
    by (symmetry; apply Z.leb_le; change (emax - prec) with 971; lia).
  reflexivity.
Qed.

(** A positive machine integer below [2 ^ 53] divided by itself is 1. *)
Lemma div_of_uint63_same (a : int) :
  0 < to_Z a < 2 ^ 53 -> (of_uint63 a / of_uint63 a)%float = 1%float.
Proof.
  intros Ha. apply Prim2SF_inj.
  rewrite FloatAxioms.div_spec, SF_one. unfold SF64div.
  destruct (of_uint63_exact a Ha) as (m & e & E & He & _ & Hm).
  rewrite E. unfold SFdiv, SFdiv_core_binary.
  rewrite (Zdigits2_53 Hm), fexp_eq.
  replace (Z.min (Z.max (53 + e - (53 + e) - 53) (-1074)) (e - e))
    with (-53) by lia.
  replace (e - e - -53) with 53 by lia.
  rewrite Z.shiftl_mul_pow2 by lia.
  pose proof (Z_div_mod (Zpos m * 2 ^ 53) (Zpos m) ltac:(lia)) as Hdiv.
  destruct (Z.div_eucl (Zpos m * 2 ^ 53) (Zpos m)) as [q r].
  destruct Hdiv as (Eq & Hr).
  assert (Eqr : q = 2 ^ 53 /\ r = 0).
  { assert (Zpos m * (2 ^ 53 - q) = r) by lia.
    assert (2 ^ 53 - q = 0) by nia. lia. }
  destruct Eqr as [-> ->].
  replace (new_location (Zpos m) 0) with loc_Exact
    by (unfold new_location, new_location_even, new_location_odd;
        destruct (Z.even (Zpos m)); reflexivity).
  reflexivity.
Qed.

Lemma of_Z_small (z : Z) : 0 <= z < 2 ^ 63 -> to_Z (Uint63.of_Z z) = z.
Proof.
  intros Hz. rewrite Uint63.of_Z_spec. change wB with (2 ^ 63).
  now apply Z.mod_small.
Qed.

(** ** More on the nuclei scorer *)

Section ScorerMore.
Context `{Imaging} `{Numpy}.

(** X11: the range of the nuclei score. On a tile whose nuclei mask has a
    pixel, when numpy's [tanh] of the tissue ratio is in [0, 1) (as it is
    for a ratio between 0 and 1), the score is a float in [0, 1): the
    bounds of the class docstring hold of the floats computed, rounding
    included. *)
Theorem nuclei_score_in_unit_interval (tile : Tile) :
  0 < size (NucleiScorer.mask_nuclei tile) < 2 ^ 53 ->
  in_unit_interval (tanh (tissue_ratio tile)) = true ->
  exists s : float,
    NucleiScorer.score tile = Ok s /\ in_unit_interval s = true.
Proof.
  intros Hsize Htanh.
  pose proof (count_nonzero_bounds (NucleiScorer.mask_nuclei tile)) as Hcount.
  assert (H63 : 2 ^ 53 < 2 ^ 63) by reflexivity.
  unfold NucleiScorer.score, truediv. cbv zeta.
  destruct (size (NucleiScorer.mask_nuclei tile) =? 0) eqn:E;
    [apply Z.eqb_eq in E; lia|].
  eexists. split; [reflexivity|].
  apply mul_in_unit_interval; [|exact Htanh].
  apply div_of_uint63_le_one; rewrite !of_Z_small by lia; lia.
Qed.

(** X12: a tile without nuclei scores 0. When no pixel of the nuclei mask
    is on (and the mask has a pixel), the score is exactly 0, whatever the
    tissue ratio, as long as numpy's [tanh] of it is a finite float that is
    not negative. *)
Theorem nuclei_score_without_nuclei (tile : Tile) :
  count_nonzero (NucleiScorer.mask_nuclei tile) = 0 ->
  0 < size (NucleiScorer.mask_nuclei tile) < 2 ^ 63 ->
  finite_nonneg (tanh (tissue_ratio tile)) = true ->
  NucleiScorer.score tile = Ok 0%float.
Proof.
  intros Hcount Hsize Htanh.
  unfold NucleiScorer.score, truediv. cbv zeta.
  destruct (size (NucleiScorer.mask_nuclei tile) =? 0) eqn:E;
    [apply Z.eqb_eq in E; lia|].
  rewrite Hcount. cbn [bind]. f_equal. apply Prim2SF_inj.
  rewrite FloatAxioms.mul_spec, FloatAxioms.div_spec, SF_zero.
  unfold SF64mul, SF64div.
  destruct (of_uint63_SF (Uint63.of_Z 0)) as [(_ & E0)|(Hpos & _)];
    [|rewrite of_Z_small in Hpos by (split; [lia|reflexivity]); lia].
  rewrite E0.
  destruct (of_uint63_SF (Uint63.of_Z (size (NucleiScorer.mask_nuclei tile))))
    as [(Hz & _)|(_ & m & e & Es & _)];
    [rewrite of_Z_small in Hz by lia; lia|].
  rewrite Es. cbn [SFdiv xorb].
  apply finite_nonneg_iff in Htanh.
  destruct Htanh as [Et|(mt & et & Et)]; rewrite Et; reflexivity.
Qed.

(** X13: a tile that is all nuclei scores [tanh] of its tissue ratio. When
    every pixel of the nuclei mask is on (and the mask has a pixel), the
    nuclei ratio is exactly 1 and the score is exactly what numpy's [tanh]
    returns on the tissue ratio. *)
Theorem nuclei_score_all_nuclei (tile : Tile) :
  count_nonzero (NucleiScorer.mask_nuclei tile)
  = size (NucleiScorer.mask_nuclei tile) ->
  0 < size (NucleiScorer.mask_nuclei tile) < 2 ^ 53 ->
  truediv (count_nonzero (NucleiScorer.mask_nuclei tile))
          (size (NucleiScorer.mask_nuclei tile)) = Ok 1%float
  /\ NucleiScorer.score tile = Ok (tanh (tissue_ratio tile)).
Proof.
  intros Hcount Hsize.
  assert (H63 : 2 ^ 53 < 2 ^ 63) by reflexivity.
  assert (Ediv : truediv (count_nonzero (NucleiScorer.mask_nuclei tile))
                         (size (NucleiScorer.mask_nuclei tile)) = Ok 1%float).
  { unfold truediv. rewrite Hcount.
    destruct (size (NucleiScorer.mask_nuclei tile) =? 0) eqn:E;
      [apply Z.eqb_eq in E; lia|].
    f_equal. apply div_of_uint63_same. rewrite of_Z_small by lia. lia. }
  split; [exact Ediv|].
  unfold NucleiScorer.score. cbv zeta. rewrite Ediv. cbn [bind].
  now rewrite mul_one_l.
Qed.
End ScorerMore.

Lemma nuclei_score_in_unit_interval_witness :
  (0 < size (@NucleiScorer.mask_nuclei Demo.imaging Demo.tile_nuclei) < 2 ^ 53
   /\ in_unit_interval (@tanh Demo.numpy (tissue_ratio Demo.tile_nuclei))
      = true)
  /\ exists s : float,
       @NucleiScorer.score Demo.imaging Demo.numpy Demo.tile_nuclei = Ok s
       /\ in_unit_interval s = true.
Proof.
  assert (Hsize : 0 < size (@NucleiScorer.mask_nuclei Demo.imaging
                              Demo.tile_nuclei) < 2 ^ 53)
    by (split; reflexivity).
  assert (Htanh : in_unit_interval
                    (@tanh Demo.numpy (tissue_ratio Demo.tile_nuclei)) = true)
    by reflexivity.
  split; [auto|].
  exact (@nuclei_score_in_unit_interval Demo.imaging Demo.numpy
           Demo.tile_nuclei Hsize Htanh).
Defined.

Lemma nuclei_score_without_nuclei_witness :
  (count_nonzero (@NucleiScorer.mask_nuclei Demo.imaging Demo.tile_stroma) = 0
   /\ 0 < size (@NucleiScorer.mask_nuclei Demo.imaging Demo.tile_stroma)
        < 2 ^ 63
   /\ finite_nonneg (@tanh Demo.numpy (tissue_ratio Demo.tile_stroma)) = true)
  /\ @NucleiScorer.score Demo.imaging Demo.numpy Demo.tile_stroma
     = Ok 0%float.
Proof.
  assert (Hcount : count_nonzero (@NucleiScorer.mask_nuclei Demo.imaging
                                    Demo.tile_stroma) = 0) by reflexivity.
  assert (Hsize : 0 < size (@NucleiScorer.mask_nuclei Demo.imaging
                              Demo.tile_stroma) < 2 ^ 63)
    by (split; reflexivity).
  assert (Htanh : finite_nonneg
                    (@tanh Demo.numpy (tissue_ratio Demo.tile_stroma)) = true)
    by reflexivity.
  split; [auto|].
  exact (@nuclei_score_without_nuclei Demo.imaging Demo.numpy
           Demo.tile_stroma Hcount Hsize Htanh).
Defined.

Lemma nuclei_score_all_nuclei_witness :
  (count_nonzero (@NucleiScorer.mask_nuclei Demo.imaging Demo.tile_all_nuclei)
   = size (@NucleiScorer.mask_nuclei Demo.imaging Demo.tile_all_nuclei)
   /\ 0 < size (@NucleiScorer.mask_nuclei Demo.imaging Demo.tile_all_nuclei)
        < 2 ^ 53)
  /\ @NucleiScorer.score Demo.imaging Demo.numpy Demo.tile_all_nuclei
     = Ok (@tanh Demo.numpy (tissue_ratio Demo.tile_all_nuclei)).
Proof.
  assert (Hcount : count_nonzero (@NucleiScorer.mask_nuclei Demo.imaging
                                    Demo.tile_all_nuclei)
                   = size (@NucleiScorer.mask_nuclei Demo.imaging
                             Demo.tile_all_nuclei)) by reflexivity.
  assert (Hsize : 0 < size (@NucleiScorer.mask_nuclei Demo.imaging
                              Demo.tile_all_nuclei) < 2 ^ 53)
    by (split; reflexivity).
  split; [auto|].
  exact (proj2 (@nuclei_score_all_nuclei Demo.imaging Demo.numpy
                  Demo.tile_all_nuclei Hcount Hsize)).
Defined.
